(** * Student-teacher matcher: a shallow embedding of [src/utils.py] and
    [src/matcher.py], with the properties of the matching engine.

    Conventions of the embedding:
    - Python [int]s are [Z]; Python [str]s are [string]s, ordered by
      [String.compare] (lexicographic on character codes, as Python's
      [sorted] orders [str]);
    - a raised exception is the [Raise] constructor of [Result];
    - DataFrame rows are records, DataFrames are lists of rows in frame order;
    - the nested dictionary [teacher_slots] is a [gmap Z (gmap string Z)];
    - the float feedback weights are rationals ([Q]), computed exactly; the
      results on candidate order hold for any weight table;
    - the rows are typed records, so the checks for missing columns (the
      [ValueError]s of [match_students_to_teachers]) always pass and are
      left out, and so is logging, which has no effect on results. *)

From Stdlib Require Import ZArith QArith List Bool String Ascii Lia.
From Stdlib Require Import Sorting.Permutation Sorting.Sorted OrderedTypeEx.
From stdpp Require Import gmap strings sorting.

Import ListNotations.
Local Open Scope string_scope.
Local Open Scope list_scope.
Local Open Scope Z_scope.

(** ** Exceptions *)

Inductive PyError : Type :=
| TypeError
| KeyError
| IndexError
| ValueError.

Inductive Result (A : Type) : Type :=
| Ok (a : A)
| Raise (e : PyError).

Arguments Ok {A} a.
Arguments Raise {A} e.

Definition bind {A B : Type} (c : Result A) (k : A -> Result B) : Result B :=
  match c with
  | Ok a => k a
  | Raise e => Raise e
  end.

Notation "'let!' x ':=' c 'in' k" := (bind c (fun x => k))
  (at level 10, x pattern, c at level 100, k at level 200).

(** ** Python values reaching the overlap utilities *)

#[local] Unset Elimination Schemes.
Inductive PyVal : Type :=
| PyNone
| PyInt (z : Z)
| PyStr (s : string)
| PyList (items : list PyVal).
#[local] Set Elimination Schemes.

(** [isinstance(v, list)] *)
Definition is_list (v : PyVal) : bool :=
  match v with
  | PyList _ => true
  | _ => false
  end.

(** [isinstance(v, str)] *)
Definition is_str (v : PyVal) : bool :=
  match v with
  | PyStr _ => true
  | _ => false
  end.

(** The strings of a list whose items passed the [isinstance] check. *)
Fixpoint strs_of (items : list PyVal) : list string :=
  match items with
  | [] => []
  | PyStr s :: rest => s :: strs_of rest
  | _ :: rest => strs_of rest
  end.

(** A well-typed list of strings, as the loader produces them. *)
Definition py_strs (l : list string) : PyVal := PyList (List.map PyStr l).

(** ** Lexicographic order on strings *)

Definition str_le (a b : string) : Prop := String.leb a b = true.
Definition str_lt (a b : string) : Prop := String.compare a b = Lt.

#[global] Instance str_le_dec : RelDecision str_le.
Proof. intros a b; unfold str_le; apply _. Defined.

(** ** [src/utils.py] *)

(** [set(a) & set(b)] *)
Definition set_inter (a b : list string) : gset string :=
  list_to_set a ∩ list_to_set b.

(** [sorted(s)] for a set of strings *)
Definition sorted (s : gset string) : list string :=
  merge_sort str_le (elements s).

(** [bool(set(a) & set(b))] *)
Definition overlaps (a b : list string) : bool :=
  negb (bool_decide (set_inter a b = ∅)).

(** [sorted(set(a) & set(b))] *)
Definition time_overlap (a b : list string) : list string :=
  sorted (set_inter a b).

Definition subject_overlap (student_subjects teacher_subjects : PyVal)
  : Result bool :=
  match student_subjects, teacher_subjects with
  | PyList a, PyList b =>
      if forallb is_str (a ++ b)
      then Ok (overlaps (strs_of a) (strs_of b))
      else Raise TypeError
  | _, _ => Raise TypeError
  end.

Definition available_time_overlap (student_times teacher_times : PyVal)
  : Result (list string) :=
  match student_times, teacher_times with
  | PyList a, PyList b =>
      if forallb is_str (a ++ b)
      then Ok (time_overlap (strs_of a) (strs_of b))
      else Raise TypeError
  | _, _ => Raise TypeError
  end.


(** ** Data model: the rows of the frames *)

Record Student : Type := mkStudent {
  student_id : Z;
  subjects : list string;
  preferred_time_slots : list string
}.

Record Teacher : Type := mkTeacher {
  teacher_id : Z;
  teacher_subjects : list string;
  available_time_slots : list string;
  max_students_per_slot : Z
}.

Record FeedbackRecord : Type := mkFeedback {
  fb_student_id : Z;
  fb_teacher_id : Z;
  fb_time_slot : string;
  rating : Z
}.

(** A schedule entry: the dictionary built by [assign_student_to_slot]. *)
Record Assignment : Type := mkAssignment {
  a_student_id : Z;
  a_teacher_id : Z;
  time_slot : string;
  lesson_type : string
}.

(** ** [src/matcher.py]: the helper and the usage table *)

Definition assign_student_to_slot
  (student_id teacher_id : Z) (slot : string) (current_count : Z) : Assignment :=
  let lesson_type := if current_count =? 0 then "1:1" else "group" in
  {| a_student_id := student_id;
     a_teacher_id := teacher_id;
     time_slot := slot;
     lesson_type := lesson_type |}.

(** [{slot: 0 for slot in available_time_slots}] *)
Definition zero_counts (slots : list string) : gmap string Z :=
  fold_left (fun d slot => <[slot := 0]> d) slots ∅.

(** The dictionary comprehension over the teacher rows: a later row with the
    same [teacher_id] replaces the earlier entry. *)
Definition init_teacher_slots (teachers : list Teacher) : gmap Z (gmap string Z) :=
  fold_left
    (fun m teacher =>
       <[teacher_id teacher := zero_counts (available_time_slots teacher)]> m)
    teachers ∅.

(** [teacher_slots[tid][slot]]: a missing key raises [KeyError]. *)
Definition get_count (teacher_slots : gmap Z (gmap string Z))
  (tid : Z) (slot : string) : Result Z :=
  match teacher_slots !! tid with
  | None => Raise KeyError
  | Some d =>
      match d !! slot with
      | None => Raise KeyError
      | Some c => Ok c
      end
  end.

(** [teacher_slots[tid][slot] += 1] *)
Definition increment (teacher_slots : gmap Z (gmap string Z))
  (tid : Z) (slot : string) : Result (gmap Z (gmap string Z)) :=
  match teacher_slots !! tid with
  | None => Raise KeyError
  | Some d =>
      match d !! slot with
      | None => Raise KeyError
      | Some c => Ok (<[tid := <[slot := c + 1]> d]> teacher_slots)
      end
  end.

(** The loop [for slot in common_slots] shared by the three scans: the first
    slot whose count is below the capacity gets the student. *)
Fixpoint scan_slots (teacher_slots : gmap Z (gmap string Z))
  (sid tid cap : Z) (common_slots : list string)
  : Result (option (Assignment * gmap Z (gmap string Z))) :=
  match common_slots with
  | [] => Ok None
  | slot :: rest =>
      let! count := get_count teacher_slots tid slot in
      if count <? cap then
        let! current_count := get_count teacher_slots tid slot in
        let entry := assign_student_to_slot sid tid slot current_count in
        let! teacher_slots' := increment teacher_slots tid slot in
        Ok (Some (entry, teacher_slots'))
      else scan_slots teacher_slots sid tid cap rest
  end.

(** A sequential [for] loop over rows, threading the loop state; an exception
    in the body ends the loop. *)
Fixpoint for_each {S X : Type} (body : S -> X -> Result S) (st : S) (xs : list X)
  : Result S :=
  match xs with
  | [] => Ok st
  | x :: rest => let! st' := body st x in for_each body st' rest
  end.

(** ** [match_students_to_teachers] *)

(** The loop [for _, teacher in teachers.iterrows()] for one student. *)
Fixpoint scan_teachers (teacher_slots : gmap Z (gmap string Z))
  (student : Student) (teachers : list Teacher)
  : Result (option (Assignment * gmap Z (gmap string Z))) :=
  match teachers with
  | [] => Ok None
  | teacher :: rest =>
      let! ov := subject_overlap (py_strs (subjects student))
                               (py_strs (teacher_subjects teacher)) in
      if ov then
        let! common_slots :=
          available_time_overlap (py_strs (preferred_time_slots student))
                                 (py_strs (available_time_slots teacher)) in
        let! hit := scan_slots teacher_slots (student_id student)
                    (teacher_id teacher) (max_students_per_slot teacher)
                    common_slots in
        match hit with
        | Some r => Ok (Some r)
        | None => scan_teachers teacher_slots student rest
        end
      else scan_teachers teacher_slots student rest
  end.

(** One iteration of [for _, student in students.iterrows()]; the state is
    [(teacher_slots, schedule)]. An unmatched student only logs a warning. *)
Definition baseline_step (teachers : list Teacher)
  (st : gmap Z (gmap string Z) * list Assignment) (student : Student)
  : Result (gmap Z (gmap string Z) * list Assignment) :=
  let! hit := scan_teachers (fst st) student teachers in
  match hit with
  | Some (entry, teacher_slots') => Ok (teacher_slots', snd st ++ [entry])
  | None => Ok st
  end.

Definition match_students_to_teachers
  (students : list Student) (teachers : list Teacher) : Result (list Assignment) :=
  let! st := for_each (baseline_step teachers)
             (init_teacher_slots teachers, []) students in
  Ok (snd st).

(** ** Feedback weights *)

Definition ratings_of (feedback : list FeedbackRecord) (tid : Z) : list Z :=
  List.map rating (List.filter (fun r => fb_teacher_id r =? tid) feedback).

Definition mean (l : list Z) : Q :=
  Qdiv (inject_Z (fold_right Z.add 0 l)) (inject_Z (Z.of_nat (length l))).

(** [teacher_weights]: a [defaultdict] with default [1.0], overwritten with
    [mean rating / 5.0] for the teachers that occur in a non-empty feedback
    frame ([None] is the absent argument). *)
Definition teacher_weights (feedback_df : option (list FeedbackRecord))
  (tid : Z) : Q :=
  match feedback_df with
  | None => 1%Q
  | Some feedback =>
      match ratings_of feedback tid with
      | [] => 1%Q
      | rs => Qdiv (mean rs) (inject_Z 5)
      end
  end.

(** Which branch of the per-student procedure appended an entry. The tag is a
    ghost annotation of the trace; the returned schedule does not carry it. *)
Inductive Path : Type :=
| Greedy
| Fallback.

(** ** [train_teacher_recommender] and [match_with_feedback_loop]

    Two library calls are parameters of the model:
    - [predict examples query]: the label a random forest fitted on
      [examples] (subject list, teacher id) returns for [query];
    - [sort_values rows]: [DataFrame.sort_values("weight", ascending=False)]
      with pandas' default sort kind. *)

Section FeedbackLoop.

Variable predict : list (list string * Z) -> list string -> Z.
Variable sort_values : list (Teacher * Q) -> list (Teacher * Q).

(** [pd.merge(students, schedule[["student_id", "teacher_id"]], on="student_id")],
    reduced to the two columns the trainer reads. *)
Definition merge_on_student_id
  (students : list Student) (schedule : list Assignment)
  : list (list string * Z) :=
  flat_map
    (fun s =>
       List.map (fun a => (subjects s, a_teacher_id a))
         (List.filter (fun a => a_student_id a =? student_id s) schedule))
    students.

(** The frame of an empty schedule has no columns, so selecting
    ["student_id"] and ["teacher_id"] raises [KeyError]; fitting on no
    example raises [ValueError]. *)
Definition train_teacher_recommender
  (schedule : list Assignment) (students : list Student)
  : Result (list string -> Z) :=
  match schedule with
  | [] => Raise KeyError
  | _ :: _ =>
      match merge_on_student_id students schedule with
      | [] => Raise ValueError
      | df => Ok (predict df)
      end
  end.

(** [teachers[teachers.apply(lambda t: subject_overlap(...), axis=1)]] *)
Fixpoint candidate_rows (student : Student) (teachers : list Teacher)
  : Result (list Teacher) :=
  match teachers with
  | [] => Ok []
  | t :: rest =>
      let! ov := subject_overlap (py_strs (subjects student))
                               (py_strs (teacher_subjects t)) in
      let! tl := candidate_rows student rest in
      Ok (if ov then t :: tl else tl)
  end.

(** The candidate frame with its ["weight"] column, sorted. *)
Definition candidate_order (weights : Z -> Q)
  (student : Student) (teachers : list Teacher)
  : Result (list (Teacher * Q)) :=
  let! rows := candidate_rows student teachers in
  Ok (sort_values (List.map (fun t => (t, weights (teacher_id t))) rows)).

(** The loop [for _, teacher in candidate_teachers.iterrows()]. *)
Fixpoint scan_candidates (teacher_slots : gmap Z (gmap string Z))
  (student : Student) (candidates : list (Teacher * Q))
  : Result (option (Assignment * gmap Z (gmap string Z))) :=
  match candidates with
  | [] => Ok None
  | (teacher, _) :: rest =>
      let! common_slots :=
        available_time_overlap (py_strs (preferred_time_slots student))
                               (py_strs (available_time_slots teacher)) in
      let! hit := scan_slots teacher_slots (student_id student)
                  (teacher_id teacher) (max_students_per_slot teacher)
                  common_slots in
      match hit with
      | Some r => Ok (Some r)
      | None => scan_candidates teacher_slots student rest
      end
  end.

(** The branch [if not assigned]: [.iloc[0]] of an empty selection raises
    [IndexError]. *)
Definition fallback (clf : list string -> Z)
  (teacher_slots : gmap Z (gmap string Z))
  (student : Student) (teachers : list Teacher)
  : Result (option (Assignment * gmap Z (gmap string Z))) :=
  let predicted_teacher := clf (subjects student) in
  match List.filter (fun t => teacher_id t =? predicted_teacher) teachers with
  | [] => Raise IndexError
  | teacher_row :: _ =>
      let! common_slots :=
        available_time_overlap (py_strs (preferred_time_slots student))
                               (py_strs (available_time_slots teacher_row)) in
      scan_slots teacher_slots (student_id student) predicted_teacher
        (max_students_per_slot teacher_row) common_slots
  end.

(** One iteration of the student loop; the state is
    [(teacher_slots, final_schedule)], each entry tagged with its branch. *)
Definition feedback_step (weights : Z -> Q) (clf : list string -> Z)
  (teachers : list Teacher)
  (st : gmap Z (gmap string Z) * list (Path * Assignment)) (student : Student)
  : Result (gmap Z (gmap string Z) * list (Path * Assignment)) :=
  let! candidate_teachers := candidate_order weights student teachers in
  let! hit := scan_candidates (fst st) student candidate_teachers in
  match hit with
  | Some (entry, teacher_slots') =>
      Ok (teacher_slots', snd st ++ [(Greedy, entry)])
  | None =>
      let! hit' := fallback clf (fst st) student teachers in
      match hit' with
      | Some (entry, teacher_slots') =>
          Ok (teacher_slots', snd st ++ [(Fallback, entry)])
      | None => Ok st
      end
  end.

Definition feedback_trace (students : list Student) (teachers : list Teacher)
  (feedback_df : option (list FeedbackRecord))
  : Result (list (Path * Assignment)) :=
  let weights := teacher_weights feedback_df in
  let teacher_slots := init_teacher_slots teachers in
  let! initial_schedule := match_students_to_teachers students teachers in
  let! clf := train_teacher_recommender initial_schedule students in
  let! st := for_each (feedback_step weights clf teachers)
             (teacher_slots, []) students in
  Ok (snd st).

Definition match_with_feedback_loop (students : list Student)
  (teachers : list Teacher) (feedback_df : option (list FeedbackRecord))
  : Result (list Assignment) :=
  let! trace := feedback_trace students teachers feedback_df in
  Ok (List.map snd trace).

End FeedbackLoop.

(** ** What the two library calls guarantee *)

(** Weight order of two rows of the sorted candidate frame. *)
Definition weight_ge (a b : Teacher * Q) : Prop := (snd b <= snd a)%Q.

(** [sort_values(..., ascending=False)] returns the same rows, in
    non-increasing order of the key. The default kind is not a stable sort,
    so nothing is promised about rows with equal keys. *)
Definition sorts_descending
  (sort_values : list (Teacher * Q) -> list (Teacher * Q)) : Prop :=
  forall rows,
    Permutation (sort_values rows) rows /\
    StronglySorted weight_ge (sort_values rows).

(** A fitted classifier predicts one of the labels it was trained on. *)
Definition predicts_training_labels
  (predict : list (list string * Z) -> list string -> Z) : Prop :=
  forall examples query,
    examples <> [] -> In (predict examples query) (List.map snd examples).

(** *** Instances used to run the model *)

(** Insertion sort that keeps rows with equal keys in frame order. *)
Fixpoint insert_desc (x : Teacher * Q) (l : list (Teacher * Q))
  : list (Teacher * Q) :=
  match l with
  | [] => [x]
  | y :: rest =>
      if Qle_bool (snd y) (snd x) then x :: l else y :: insert_desc x rest
  end.

Definition stable_sort_desc (rows : list (Teacher * Q)) : list (Teacher * Q) :=
  fold_right insert_desc [] rows.

(** A classifier that always answers with the first training label. *)
Definition predict_first_label
  (examples : list (list string * Z)) (query : list string) : Z :=
  match examples with
  | [] => 0
  | (_, label) :: _ => label
  end.

(** ** Vocabulary of the properties *)

(** The occupancy the usage table records for a (teacher id, slot) pair. *)
Definition usage_of (teacher_slots : gmap Z (gmap string Z))
  (tid : Z) (slot : string) : option Z :=
  match teacher_slots !! tid with
  | Some d => d !! slot
  | None => None
  end.

Definition on_pair (tid : Z) (slot : string) (a : Assignment) : bool :=
  (a_teacher_id a =? tid) && bool_decide (time_slot a = slot).

(** Number of entries of a schedule that reference a (teacher id, slot) pair. *)
Definition occupancy (tid : Z) (slot : string) (schedule : list Assignment) : Z :=
  Z.of_nat (length (List.filter (on_pair tid slot) schedule)).

(** The entry joins a student row and a teacher row on a slot that both
    lists contain. *)
Definition slot_sound (student : Student) (teacher : Teacher) (a : Assignment)
  : Prop :=
  a_student_id a = student_id student /\
  a_teacher_id a = teacher_id teacher /\
  In (time_slot a) (preferred_time_slots student) /\
  In (time_slot a) (available_time_slots teacher).

(** The two subject lists share an element. *)
Definition subjects_intersect (student : Student) (teacher : Teacher) : Prop :=
  exists subject,
    In subject (subjects student) /\ In subject (teacher_subjects teacher).

(** *** The first-fit rule of the baseline matcher, in the words of the
    specification *)

(** Occupancy below capacity, read off the usage table. *)
Definition has_room (teacher_slots : gmap Z (gmap string Z))
  (teacher : Teacher) (slot : string) : bool :=
  match usage_of teacher_slots (teacher_id teacher) slot with
  | Some c => c <? max_students_per_slot teacher
  | None => false
  end.

(** The first slot, in sorted order of the preferred/available intersection,
    whose occupancy is below capacity. *)
Definition first_free_slot (teacher_slots : gmap Z (gmap string Z))
  (student : Student) (teacher : Teacher) : option string :=
  List.find (has_room teacher_slots teacher)
    (time_overlap (preferred_time_slots student) (available_time_slots teacher)).

(** The teacher can take the student: subject overlap and a free common slot. *)
Definition can_take (teacher_slots : gmap Z (gmap string Z))
  (student : Student) (teacher : Teacher) : bool :=
  overlaps (subjects student) (teacher_subjects teacher)
  && match first_free_slot teacher_slots student teacher with
     | Some _ => true
     | None => false
     end.

(** Committing an assignment: append the entry typed by the pre-increment
    occupancy, then increment the occupancy. *)
Definition commit (st : gmap Z (gmap string Z) * list Assignment)
  (student : Student) (teacher : Teacher) (slot : string)
  : gmap Z (gmap string Z) * list Assignment :=
  let tid := teacher_id teacher in
  match fst st !! tid with
  | Some d =>
      match d !! slot with
      | Some c =>
          (<[tid := <[slot := c + 1]> d]> (fst st),
           snd st ++ [assign_student_to_slot (student_id student) tid slot c])
      | None => st
      end
  | None => st
  end.

(** Amended rule: the student goes to the first teacher, in input order,
    that has subject overlap and a free common slot, at its first free slot. *)
Definition first_fit_step (teachers : list Teacher)
  (st : gmap Z (gmap string Z) * list Assignment) (student : Student)
  : gmap Z (gmap string Z) * list Assignment :=
  match List.find (can_take (fst st) student) teachers with
  | Some teacher =>
      match first_free_slot (fst st) student teacher with
      | Some slot => commit st student teacher slot
      | None => st
      end
  | None => st
  end.

Definition first_fit_run (students : list Student) (teachers : list Teacher)
  : list Assignment :=
  snd (fold_left (first_fit_step teachers) students
         (init_teacher_slots teachers, [])).

(** The rule as the claim words it: the first teacher, in input order, that
    has subject overlap with the student. *)
Definition first_overlapping_teacher (student : Student)
  (teachers : list Teacher) : option Teacher :=
  List.find (fun t => overlaps (subjects student) (teacher_subjects t)) teachers.

(** *** Invariant of both student loops

    [seen] are the students processed so far and [trace] the tagged entries
    appended so far. *)

(** What is recorded about the teacher row an entry was committed on: the
    row belongs to the teacher frame and, on the greedy branch, shares a
    subject with the student. *)
Definition scanned_row (teachers : list Teacher)
  (p : Path) (student : Student) (teacher : Teacher) : Prop :=
  In teacher teachers /\
  (p = Greedy ->
   overlaps (subjects student) (teacher_subjects teacher) = true).

(** Nothing recorded about the row. *)
Definition any_row (p : Path) (student : Student) (teacher : Teacher) : Prop :=
  True.

(** An entry of the trace, given the entries [before] it. *)
Definition entry_ok (row_ok : Path -> Student -> Teacher -> Prop)
  (seen : list Student)
  (before : list (Path * Assignment)) (e : Path * Assignment) : Prop :=
  exists student teacher slot,
    In student seen /\ row_ok (fst e) student teacher /\
    In slot (preferred_time_slots student) /\
    In slot (available_time_slots teacher) /\
    occupancy (teacher_id teacher) slot (List.map snd before)
      < max_students_per_slot teacher /\
    snd e = assign_student_to_slot (student_id student) (teacher_id teacher) slot
              (occupancy (teacher_id teacher) slot (List.map snd before)).

Record loop_inv (row_ok : Path -> Student -> Teacher -> Prop)
  (seen : list Student)
  (teacher_slots : gmap Z (gmap string Z)) (trace : list (Path * Assignment))
  : Prop := {
  (* the table counts the entries of the trace *)
  inv_usage : forall tid slot,
    occupancy tid slot (List.map snd trace)
    = default 0 (usage_of teacher_slots tid slot);
  (* every entry was committed under the capacity check *)
  inv_entries : forall before e after,
    trace = before ++ e :: after -> entry_ok row_ok seen before e;
  (* the students of the trace, in order, are among the processed ones *)
  inv_students :
    sublist (List.map (fun e => a_student_id (snd e)) trace)
            (List.map student_id seen)
}.

(** Every slot a teacher row offers has a counter in the table. *)
Definition covers (teachers : list Teacher)
  (teacher_slots : gmap Z (gmap string Z)) : Prop :=
  forall teacher slot,
    In teacher teachers -> In slot (available_time_slots teacher) ->
    is_Some (usage_of teacher_slots (teacher_id teacher) slot).

(** The baseline schedule as a trace: every entry is a greedy one. *)
Definition greedy_tagged (schedule : list Assignment) : list (Path * Assignment) :=
  List.map (fun a => (Greedy, a)) schedule.

(** A teacher scan, read as the outcome of one baseline iteration. *)
Definition step_outcome (st : gmap Z (gmap string Z) * list Assignment)
  (hit : option (Assignment * gmap Z (gmap string Z)))
  : gmap Z (gmap string Z) * list Assignment :=
  match hit with
  | Some (entry, teacher_slots') => (teacher_slots', snd st ++ [entry])
  | None => st
  end.

(** ** Concrete frames used to run the model *)

Definition t_math1 : Teacher := mkTeacher 1 ["Math"] ["Mon9"] 1.
Definition t_math2 : Teacher := mkTeacher 2 ["Math"] ["Mon9"] 1.
Definition t_math_wide : Teacher := mkTeacher 7 ["Math"] ["Tue10"; "Mon9"] 2.

Definition s_math1 : Student := mkStudent 1 ["Math"] ["Mon9"].
Definition s_math2 : Student := mkStudent 2 ["Math"] ["Mon9"].
Definition s_math3 : Student := mkStudent 3 ["Math"] ["Mon9"].
Definition s_art : Student := mkStudent 4 ["Art"] ["Mon9"; "Tue10"].

(** Two single-seat teachers and three students who all want the same slot. *)
Definition two_teachers : list Teacher := [t_math1; t_math2].
Definition three_students : list Student := [s_math1; s_math2; s_math3].

(** One two-seat teacher, a matching student and a student of another subject. *)
Definition one_teacher : list Teacher := [t_math_wide].
Definition mixed_students : list Student := [s_math1; s_art].

(** Ratings that put the second teacher ahead of the first: mean 2 and
    mean 5, so weights 2/5 and 1. *)
Definition ratings : list FeedbackRecord :=
  [mkFeedback 1 1 "Mon9" 2; mkFeedback 2 2 "Mon9" 5].

Definition entry (sid tid : Z) (slot kind : string) : Assignment :=
  {| a_student_id := sid; a_teacher_id := tid;
     time_slot := slot; lesson_type := kind |}.

(** What both matchers return on [three_students] and [two_teachers] without
    feedback: the third student stays unmatched. *)
Definition two_seats_schedule : list Assignment :=
  [entry 1 1 "Mon9" "1:1"; entry 2 2 "Mon9" "1:1"].

(** The trace of the feedback loop on [mixed_students] and [one_teacher]:
    the art student is placed by the fallback branch. *)
Definition mixed_trace : list (Path * Assignment) :=
  [(Greedy, entry 1 7 "Mon9" "1:1"); (Fallback, entry 4 7 "Mon9" "group")].

(** ** Growth of the loop state *)

(** No key of the usage table is added or removed, and no counter decreases. *)
Definition table_grows (ts ts' : gmap Z (gmap string Z)) : Prop :=
  forall tid slot,
    match usage_of ts tid slot, usage_of ts' tid slot with
    | Some c, Some c' => c <= c'
    | None, None => True
    | _, _ => False
    end.

(** The later state keeps the entries appended so far, in place, and its
    table has grown. *)
Definition extends {E : Type}
  (st st' : gmap Z (gmap string Z) * list E) : Prop :=
  (exists more, snd st' = snd st ++ more) /\ table_grows (fst st) (fst st').

(** Every slot the student and the teacher share is filled to capacity in
    the schedule. *)
Definition no_room_left (schedule : list Assignment)
  (student : Student) (teacher : Teacher) : Prop :=
  forall slot,
    In slot (preferred_time_slots student) ->
    In slot (available_time_slots teacher) ->
    max_students_per_slot teacher
    <= occupancy (teacher_id teacher) slot schedule.

(** ** [src/data_loader.py]

    The cells of the raw frames are [option string]s: [None] is a missing
    cell ([pd.isna]), [Some v] the text [str(value)] of a present one.
    Characters are code points below 256. An id column with a missing cell
    is read as floats; they compare and hash as the integers they denote,
    so ids are integers here. *)

(** [str.isspace] on a code point below 256: tab to carriage return, the
    four separators 28 to 31, space, next line and no-break space. *)
Definition is_space (c : ascii) : bool :=
  let n := N_of_ascii c in
  ((9 <=? n) && (n <=? 13) || (28 <=? n) && (n <=? 32)
   || (n =? 133) || (n =? 160))%N.

Fixpoint lstrip (s : string) : string :=
  match s with
  | EmptyString => EmptyString
  | String c rest => if is_space c then lstrip rest else s
  end.

Fixpoint rstrip (s : string) : string :=
  match s with
  | EmptyString => EmptyString
  | String c rest =>
      match rstrip rest with
      | EmptyString => if is_space c then EmptyString else String c EmptyString
      | kept => String c kept
      end
  end.

(** [s.strip()] *)
Definition strip (s : string) : string := rstrip (lstrip s).

(** [s.split(sep)] for a one-character separator: never an empty list. *)
Fixpoint split (sep : ascii) (s : string) : list string :=
  match s with
  | EmptyString => [EmptyString]
  | String c rest =>
      if Ascii.eqb c sep then EmptyString :: split sep rest
      else match split sep rest with
           | piece :: pieces => String c piece :: pieces
           | [] => [String c EmptyString]
           end
  end.

Definition comma : ascii := ","%char.

(** [bool(s)] of a string *)
Definition nonempty (s : string) : bool := negb (String.eqb s EmptyString).

Definition safe_split (value : option string) (default : string) : list string :=
  match value with
  | None => [default]
  | Some v =>
      if String.eqb (strip v) EmptyString then [default]
      else List.filter nonempty (List.map strip (split comma v))
  end.

Record RawStudent : Type := mkRawStudent {
  raw_student_id : option Z;
  raw_subjects : option string;
  raw_preferred_time_slots : option string
}.

Record RawTeacher : Type := mkRawTeacher {
  raw_teacher_id : option Z;
  raw_teacher_subjects : option string;
  raw_available_time_slots : option string;
  raw_max_students_per_slot : Z
}.

(** [load_students] after [pd.read_csv]: [dropna] on the id, then the two
    list columns. *)
Fixpoint load_students (rows : list RawStudent) : list Student :=
  match rows with
  | [] => []
  | r :: rest =>
      match raw_student_id r with
      | None => load_students rest
      | Some sid =>
          mkStudent sid (safe_split (raw_subjects r) "Unknown")
            (safe_split (raw_preferred_time_slots r) "N/A")
          :: load_students rest
      end
  end.

Fixpoint load_teachers (rows : list RawTeacher) : list Teacher :=
  match rows with
  | [] => []
  | r :: rest =>
      match raw_teacher_id r with
      | None => load_teachers rest
      | Some tid =>
          mkTeacher tid (safe_split (raw_teacher_subjects r) "Unknown")
            (safe_split (raw_available_time_slots r) "N/A")
            (raw_max_students_per_slot r)
          :: load_teachers rest
      end
  end.

(** *** Vocabulary for the loader *)

Definition chars (s : string) : list ascii := list_ascii_of_string s.

(** Only whitespace (possibly nothing). *)
Definition blank (s : string) : Prop := Forall (fun c => is_space c = true) (chars s).

(** A list item as [safe_split] produces them: not empty, no whitespace at
    either end, no comma. *)
Definition clean (item : string) : Prop :=
  item <> EmptyString /\ strip item = item /\ ~ In comma (chars item).

(** ** [src/feedback.py]

    A frame is its column index and its rows, each row a dictionary from
    column names to cells. The global random generator is a state threaded
    through the two draws of each row; its two operations are parameters.
    Writing the CSV file is left out. *)

Record Frame : Type := mkFrame {
  columns : list string;
  rows : list (gmap string PyVal)
}.

(** The row [pd.DataFrame] builds from a schedule entry. *)
Definition row_of_entry (a : Assignment) : gmap string PyVal :=
  <["student_id" := PyInt (a_student_id a)]>
    (<["teacher_id" := PyInt (a_teacher_id a)]>
       (<["time_slot" := PyStr (time_slot a)]>
          (<["lesson_type" := PyStr (lesson_type a)]> ∅))).

(** [pd.DataFrame(schedule)]: the frame of an empty list has no column. *)
Definition frame_of_schedule (schedule : list Assignment) : Frame :=
  match schedule with
  | [] => mkFrame [] []
  | _ :: _ =>
      mkFrame ["student_id"; "teacher_id"; "time_slot"; "lesson_type"]
        (List.map row_of_entry schedule)
  end.

Definition COMMENTS_POOL : list string :=
  ["Excellent teaching!"; "Very helpful."; "Clear explanations.";
   "Good effort."; "Average performance."; "Could improve pacing.";
   "Friendly and patient."; "Needs more examples."; "Highly recommended!";
   "Student understood concepts well."].

(** [needle in s] for two strings *)
Fixpoint contains (needle s : string) : bool :=
  String.prefix needle s
  || match s with
     | EmptyString => false
     | String _ rest => contains needle rest
     end.

(** [needle in v]: substring of a string, element of a list, [TypeError]
    for a value that is not iterable. *)
Definition py_in (needle : string) (v : PyVal) : Result bool :=
  match v with
  | PyStr s => Ok (contains needle s)
  | PyList items =>
      Ok (existsb (fun x => match x with
                            | PyStr s => String.eqb s needle
                            | _ => false
                            end) items)
  | _ => Raise TypeError
  end.

(** [row[name]] *)
Definition cell (row : gmap string PyVal) (name : string) : Result PyVal :=
  match row !! name with
  | Some v => Ok v
  | None => Raise KeyError
  end.

Record FeedbackEntry : Type := mkFeedbackEntry {
  f_student_id : PyVal;
  f_teacher_id : PyVal;
  f_time_slot : PyVal;
  f_rating : Z;
  f_comments : string
}.

Section Feedback.

Variable Rng : Type.
Variable randint : Rng -> Z -> Z -> Z * Rng.
Variable choice : Rng -> list string -> string * Rng.

(** The loop [for _, row in schedule_df.iterrows()]. *)
Fixpoint simulate_rows (g : Rng) (rs : list (gmap string PyVal))
  : Result (list FeedbackEntry * Rng) :=
  match rs with
  | [] => Ok ([], g)
  | row :: rest =>
      let! is_group := py_in "group" (default (PyStr "") (row !! "match_type")) in
      let (rating, g1) := if is_group then randint g 3 5 else randint g 4 5 in
      let (comment, g2) := choice g1 COMMENTS_POOL in
      let! sid := cell row "student_id" in
      let! tid := cell row "teacher_id" in
      let! slot := cell row "time_slot" in
      let! out := simulate_rows g2 rest in
      Ok (mkFeedbackEntry sid tid slot rating comment :: fst out, snd out)
  end.

Definition generate_feedback (schedule_df : Frame) (g : Rng)
  : Result (list FeedbackEntry * Rng) :=
  if forallb (fun c => existsb (String.eqb c) (columns schedule_df))
       ["student_id"; "teacher_id"; "time_slot"]
  then simulate_rows g (rows schedule_df)
  else Raise ValueError.

End Feedback.

(** [random.randint(a, b)] returns an integer between [a] and [b]. *)
Definition draws_in_range {Rng : Type}
  (randint : Rng -> Z -> Z -> Z * Rng) : Prop :=
  forall g a b, a <= b -> a <= fst (randint g a b) <= b.

(** [random.choice(l)] returns an element of a non-empty [l]. *)
Definition picks_from {Rng : Type}
  (choice : Rng -> list string -> string * Rng) : Prop :=
  forall g l, l <> [] -> In (fst (choice g l)) l.

(** A counter as generator, to run the model. *)
Definition counter_randint (g : nat) (a b : Z) : Z * nat :=
  (a + Z.of_nat g mod (b - a + 1), S g).

Definition counter_choice (g : nat) (l : list string) : string * nat :=
  (nth (g mod length l) l EmptyString, S g).

(** The feedback frame read as the typed records the weights are computed
    from: integer ids and a string slot. *)
Definition feedback_record (f : FeedbackEntry) : option FeedbackRecord :=
  match f_student_id f, f_teacher_id f, f_time_slot f with
  | PyInt sid, PyInt tid, PyStr slot => Some (mkFeedback sid tid slot (f_rating f))
  | _, _, _ => None
  end.

(** A feedback entry is the simulated feedback of a schedule entry. *)
Definition feedback_of (a : Assignment) (f : FeedbackEntry) : Prop :=
  f_student_id f = PyInt (a_student_id a) /\
  f_teacher_id f = PyInt (a_teacher_id a) /\
  f_time_slot f = PyStr (time_slot a) /\
  4 <= f_rating f <= 5 /\
  In (f_comments f) COMMENTS_POOL.

(** ** [src/evaluator.py]

    [evaluate_schedule] returns nothing and logs a summary; the model returns
    the two values the summary is made of. The schedule frame is given by the
    entries it was built from; the satisfaction scores, read from a file, are
    left out. *)

(** [schedule[schedule["time_slot"] != "N/A"]] *)
Definition clean_schedule (schedule : list Assignment) : list Assignment :=
  List.filter (fun a => negb (String.eqb (time_slot a) "N/A")) schedule.

(** [series.nunique()] *)
Definition nunique (l : list Z) : nat := length (nodup Z.eq_dec l).

(** [groupby(["teacher_id", "time_slot"]).size()], as the dictionary from a
    group to its size (the order of the groups is left out). *)
Definition group_sizes (schedule : list Assignment) : gmap (Z * string) nat :=
  fold_left
    (fun m a =>
       let key := (a_teacher_id a, time_slot a) in
       <[key := S (default 0%nat (m !! key))]> m)
    schedule ∅.

(** The frame of an empty schedule has no column and fails the check of the
    required columns. *)
Definition evaluate_schedule (schedule : list Assignment)
  : Result (nat * gmap (Z * string) nat) :=
  match schedule with
  | [] => Raise ValueError
  | _ :: _ =>
      let clean := clean_schedule schedule in
      let num_students_matched := nunique (List.map a_student_id clean) in
      let teacher_usage := group_sizes clean in
      Ok (num_students_matched, teacher_usage)
  end.

(** ** More concrete frames *)

(** A teacher without a seat, after a single-seat teacher. *)
Definition t_closed : Teacher := mkTeacher 3 ["Math"] ["Mon9"] 0.
Definition closed_teachers : list Teacher := [t_math1; t_closed].

(** A student row without slot cell, and a row without id. *)
Definition raw_students : list RawStudent :=
  [mkRawStudent (Some 1) (Some "Math") None;
   mkRawStudent None (Some "Art") (Some "Mon9")].

(** A teacher row whose slot cell was missing as well. *)
Definition t_placeholder : Teacher := mkTeacher 1 ["Math"] ["N/A"] 1.

(** A frame without the column "time_slot". *)
Definition two_columns : Frame := mkFrame ["student_id"; "teacher_id"] [].

(** A schedule frame in which a student id repeats and one entry sits at the
    placeholder slot. *)
Definition repeated_schedule : list Assignment :=
  [entry 1 1 "Mon9" "1:1"; entry 1 2 "Tue10" "1:1"; entry 2 1 "N/A" "1:1"].
(** * Properties *)

Example overlap_demo :
  available_time_overlap (py_strs ["Tue10"; "Mon9"; "Wed8"; "Mon9"])
                         (py_strs ["Wed8"; "Mon9"; "Fri1"])
  = Ok ["Mon9"; "Wed8"].
Proof. vm_compute. reflexivity. Qed.

(** ** The order facts [sorted] relies on *)

Lemma str_cmp_lt (a b : string) : str_lt a b <-> String_as_OT.lt a b.
Proof. unfold str_lt. apply String_as_OT.cmp_lt. Qed.

Lemma str_lt_trans (a b c : string) : str_lt a b -> str_lt b c -> str_lt a c.
Proof.
  rewrite !str_cmp_lt. apply String_as_OT.lt_trans.
Qed.

Lemma str_lt_irrefl (a : string) : ~ str_lt a a.
Proof.
  rewrite str_cmp_lt. intros H.
  exact (String_as_OT.lt_not_eq _ _ H Logic.eq_refl).
Qed.

Lemma str_le_lt_or_eq (a b : string) : str_le a b <-> str_lt a b \/ a = b.
Proof.
  unfold str_le, str_lt, String.leb.
  destruct (String.compare a b) eqn:E; split; intros H; auto; try discriminate.
  - right. now apply String.compare_eq_iff.
  - destruct H as [H | ->]; [discriminate |].
    exfalso. apply (str_lt_irrefl b). unfold str_lt.
    rewrite String.compare_antisym, E. reflexivity.
Qed.

#[global] Instance str_le_total : Total str_le.
Proof. intros a b. apply String.leb_total. Qed.

#[global] Instance str_le_trans : Transitive str_le.
Proof.
  intros a b c. rewrite !str_le_lt_or_eq.
  intros [Hab | ->] [Hbc | ->]; eauto using str_lt_trans.
Qed.

Lemma StronglySorted_le_lt (l : list string) :
  StronglySorted str_le l -> List.NoDup l -> StronglySorted str_lt l.
Proof.
  induction 1 as [| x l Hl IH Hx]; intros Hnd; constructor.
  - apply IH. now inversion Hnd.
  - inversion Hnd as [| ? ? Hnotin _]; subst.
    rewrite List.Forall_forall in *. intros y Hy.
    destruct (proj1 (str_le_lt_or_eq x y) (Hx y Hy)) as [Hlt | ->]; tauto.
Qed.

(** Two strictly ascending lists with the same elements are the same list. *)
Lemma strictly_sorted_unique (l1 l2 : list string) :
  StronglySorted str_lt l1 -> StronglySorted str_lt l2 ->
  (forall x, In x l1 <-> In x l2) -> l1 = l2.
Proof.
  intros H1. revert l2.
  induction H1 as [| x l1 Hs1 IH Hx]; intros l2 H2 Heq.
  - destruct l2 as [| y l2]; [reflexivity |].
    destruct (proj2 (Heq y) (or_introl Logic.eq_refl)).
  - destruct H2 as [| y l2 Hs2 Hy].
    + destruct (proj1 (Heq x) (or_introl Logic.eq_refl)).
    + rewrite List.Forall_forall in Hx, Hy.
      assert (x = y) as <-.
      { destruct (proj1 (Heq x) (or_introl Logic.eq_refl)) as [E | Hin]; [auto |].
        destruct (proj2 (Heq y) (or_introl Logic.eq_refl)) as [E | Hin']; [auto |].
        exfalso. apply (str_lt_irrefl x).
        eapply str_lt_trans; [apply Hx, Hin' | apply Hy, Hin]. }
      f_equal. apply IH; [assumption |].
      intros z; split; intros Hz.
      * destruct (proj1 (Heq z) (or_intror Hz)) as [<- | Hin]; [| assumption].
        exfalso. exact (str_lt_irrefl _ (Hx _ Hz)).
      * destruct (proj2 (Heq z) (or_intror Hz)) as [<- | Hin]; [| assumption].
        exfalso. exact (str_lt_irrefl _ (Hy _ Hz)).
Qed.

Lemma sorted_In (s : gset string) (x : string) : In x (sorted s) <-> x ∈ s.
Proof.
  unfold sorted. rewrite <- list_elem_of_In.
  rewrite (merge_sort_Permutation str_le (elements s)).
  apply elem_of_elements.
Qed.

Lemma sorted_strict (s : gset string) : StronglySorted str_lt (sorted s).
Proof.
  unfold sorted. apply StronglySorted_le_lt.
  - apply (StronglySorted_merge_sort str_le).
  - apply NoDup_ListNoDup.
    rewrite (merge_sort_Permutation str_le (elements s)).
    apply NoDup_elements.
Qed.

Lemma set_inter_In (a b : list string) (x : string) :
  x ∈ set_inter a b <-> In x a /\ In x b.
Proof.
  unfold set_inter. rewrite elem_of_intersection, !elem_of_list_to_set.
  now rewrite !list_elem_of_In.
Qed.

Lemma strs_of_py (l : list string) : strs_of (List.map PyStr l) = l.
Proof. induction l; simpl; congruence. Qed.

Lemma all_str_py (a b : list string) :
  forallb is_str (List.map PyStr a ++ List.map PyStr b) = true.
Proof.
  rewrite forallb_app. apply andb_true_intro.
  split; apply forallb_forall; intros v Hv;
    apply in_map_iff in Hv; destruct Hv as (s & <- & _); reflexivity.
Qed.

(** ** The overlap utilities on loader-typed lists *)

Lemma time_overlap_In (a b : list string) (x : string) :
  In x (time_overlap a b) <-> In x a /\ In x b.
Proof. unfold time_overlap. now rewrite sorted_In, set_inter_In. Qed.

Lemma overlaps_true (a b : list string) :
  overlaps a b = true <-> exists x, In x a /\ In x b.
Proof.
  unfold overlaps. rewrite negb_true_iff, bool_decide_eq_false. split.
  - intros Hne. apply set_choose_L in Hne as [x Hx].
    exists x. now apply set_inter_In.
  - intros [x Hx] Hempty. apply set_inter_In in Hx.
    rewrite Hempty in Hx. now apply not_elem_of_empty in Hx.
Qed.

Lemma subject_overlap_typed (a b : list string) :
  subject_overlap (py_strs a) (py_strs b) = Ok (overlaps a b).
Proof.
  unfold subject_overlap, py_strs. now rewrite all_str_py, !strs_of_py.
Qed.

Lemma available_time_overlap_typed (a b : list string) :
  available_time_overlap (py_strs a) (py_strs b) = Ok (time_overlap a b).
Proof.
  unfold available_time_overlap, py_strs. now rewrite all_str_py, !strs_of_py.
Qed.

Lemma time_overlap_empty (a b : list string) :
  (forall x, In x a -> In x b -> False) -> time_overlap a b = [].
Proof.
  intros Hdisj. destruct (time_overlap a b) as [| x l] eqn:E; [reflexivity |].
  assert (In x (time_overlap a b)) as Hx by (rewrite E; now left).
  apply time_overlap_In in Hx. destruct Hx. exfalso. eauto.
Qed.

(** C8. On two lists of strings [available_time_overlap] returns the
    lexicographically sorted sequence of their set intersection: strictly
    ascending, with exactly the common elements, and the only such list; an
    empty intersection gives the empty list and no exception; an argument
    that is not a list, or a list with a non-string element, raises
    [TypeError]. *)
Theorem available_time_overlap_spec :
  (forall a b : list string,
      exists l,
        available_time_overlap (py_strs a) (py_strs b) = Ok l /\
        StronglySorted str_lt l /\
        (forall x, In x l <-> In x a /\ In x b) /\
        (forall l', StronglySorted str_lt l' ->
                    (forall x, In x l' <-> In x a /\ In x b) -> l' = l)) /\
  (forall a b : list string,
      (forall x, In x a -> In x b -> False) ->
      available_time_overlap (py_strs a) (py_strs b) = Ok []) /\
  (forall u v : PyVal,
      is_list u = false \/ is_list v = false ->
      available_time_overlap u v = Raise TypeError) /\
  (forall (a b : list PyVal) (x : PyVal),
      In x (a ++ b) -> is_str x = false ->
      available_time_overlap (PyList a) (PyList b) = Raise TypeError).
Proof.
  repeat split.
  - intros a b. exists (time_overlap a b).
    split; [apply available_time_overlap_typed |].
    split; [apply sorted_strict |].
    split; [apply time_overlap_In |].
    intros l' Hs Hin. apply strictly_sorted_unique.
    + assumption.
    + apply sorted_strict.
    + intros x. now rewrite Hin, time_overlap_In.
  - intros a b Hdisj.
    now rewrite available_time_overlap_typed, time_overlap_empty.
  - intros u v [Hu | Hv]; destruct u; try discriminate; try reflexivity;
      destruct v; try discriminate; reflexivity.
  - intros a b x Hx Hstr. simpl.
    destruct (forallb is_str (a ++ b)) eqn:E; [| reflexivity].
    rewrite forallb_forall in E. rewrite (E x Hx) in Hstr. discriminate.
Qed.

(** ** The usage table *)

Lemma usage_of_bump (ts : gmap Z (gmap string Z)) tid slot d v tid' slot' :
  ts !! tid = Some d ->
  usage_of (<[tid := <[slot := v]> d]> ts) tid' slot'
  = if decide (tid' = tid /\ slot' = slot) then Some v
    else usage_of ts tid' slot'.
Proof.
  intros Hd. unfold usage_of.
  destruct (decide (tid' = tid)) as [-> | Hne].
  - rewrite lookup_insert_eq, Hd.
    destruct (decide (slot' = slot)) as [-> | Hne'].
    + rewrite lookup_insert_eq. now rewrite decide_True.
    + rewrite lookup_insert_ne by congruence. rewrite decide_False; tauto.
  - rewrite lookup_insert_ne by congruence. rewrite decide_False; tauto.
Qed.

Lemma zero_counts_snoc slots slot :
  zero_counts (slots ++ [slot]) = <[slot := 0]> (zero_counts slots).
Proof. unfold zero_counts. now rewrite fold_left_app. Qed.

Lemma zero_counts_lookup slots slot :
  zero_counts slots !! slot = if decide (slot ∈ slots) then Some 0 else None.
Proof.
  induction slots as [| x slots IH] using rev_ind.
  - rewrite decide_False; [reflexivity | apply not_elem_of_nil].
  - rewrite zero_counts_snoc.
    destruct (decide (x = slot)) as [-> | Hne].
    + rewrite lookup_insert_eq, decide_True; [reflexivity |].
      apply elem_of_app. right. now apply list_elem_of_singleton.
    + rewrite lookup_insert_ne, IH by assumption.
      destruct (decide (slot ∈ slots)) as [Hin | Hnin].
      * rewrite decide_True; [reflexivity |]. apply elem_of_app. now left.
      * rewrite decide_False; [reflexivity |]. rewrite elem_of_app.
        rewrite list_elem_of_singleton. intros [? | ?]; congruence.
Qed.

Lemma init_teacher_slots_snoc teachers t :
  init_teacher_slots (teachers ++ [t])
  = <[teacher_id t := zero_counts (available_time_slots t)]>
      (init_teacher_slots teachers).
Proof. unfold init_teacher_slots. now rewrite fold_left_app. Qed.

(** Every dictionary of the fresh table is the zero dictionary of a row. *)
Lemma init_teacher_slots_rows teachers tid d :
  init_teacher_slots teachers !! tid = Some d ->
  exists t, In t teachers /\ teacher_id t = tid /\
            d = zero_counts (available_time_slots t).
Proof.
  induction teachers as [| x teachers IH] using rev_ind.
  - unfold init_teacher_slots. simpl. now rewrite lookup_empty.
  - rewrite init_teacher_slots_snoc.
    destruct (decide (teacher_id x = tid)) as [E | Hne].
    + rewrite E, lookup_insert_eq. intros [= <-].
      exists x. split; [apply in_or_app; right; now left | auto].
    + rewrite lookup_insert_ne by assumption. intros H.
      destruct (IH H) as (t & Hin & Hid & Hd).
      exists t. split; [apply in_or_app; tauto | auto].
Qed.

Lemma init_usage_zero teachers tid slot :
  default 0 (usage_of (init_teacher_slots teachers) tid slot) = 0.
Proof.
  unfold usage_of.
  destruct (init_teacher_slots teachers !! tid) as [d |] eqn:E; [| reflexivity].
  apply init_teacher_slots_rows in E as (t & _ & _ & ->).
  rewrite zero_counts_lookup. now destruct (decide _).
Qed.

Lemma NoDup_teacher_eq teachers t t' :
  List.NoDup (List.map teacher_id teachers) ->
  In t teachers -> In t' teachers -> teacher_id t = teacher_id t' -> t = t'.
Proof.
  induction teachers as [| x teachers IH]; simpl; [tauto |].
  intros Hnd. inversion Hnd as [| ? ? Hnotin Hnd']; subst.
  intros [-> | Hin] [-> | Hin'] Hid; auto.
  - exfalso. apply Hnotin. rewrite Hid. now apply in_map.
  - exfalso. apply Hnotin. rewrite <- Hid. now apply in_map.
Qed.

(** With pairwise distinct teacher ids the fresh table has a counter for
    every slot of every row. *)
Lemma init_covers teachers :
  List.NoDup (List.map teacher_id teachers) ->
  covers teachers (init_teacher_slots teachers).
Proof.
  intros Hnd t slot Hin Hslot. unfold usage_of.
  destruct (init_teacher_slots teachers !! teacher_id t) as [d |] eqn:E.
  - apply init_teacher_slots_rows in E as (t' & Hin' & Hid & ->).
    assert (t' = t) as -> by eauto using NoDup_teacher_eq.
    rewrite zero_counts_lookup, decide_True; [eauto |].
    now apply list_elem_of_In.
  - exfalso. clear Hnd Hslot.
    induction teachers as [| x teachers IH] using rev_ind; [easy |].
    rewrite init_teacher_slots_snoc in E.
    destruct (decide (teacher_id x = teacher_id t)) as [Hid | Hne].
    + now rewrite Hid, lookup_insert_eq in E.
    + rewrite lookup_insert_ne in E by assumption.
      apply in_app_or in Hin as [Hin | [-> | []]]; [auto | congruence].
Qed.

Lemma covers_bump teachers (ts : gmap Z (gmap string Z)) tid slot d v :
  ts !! tid = Some d ->
  covers teachers ts -> covers teachers (<[tid := <[slot := v]> d]> ts).
Proof.
  intros Hd Hc t s Hin Hs. rewrite (usage_of_bump ts) by assumption.
  destruct (decide _); eauto.
Qed.

(** ** The slot scan *)

Lemma has_room_lookup (ts : gmap Z (gmap string Z)) t slot d c :
  ts !! teacher_id t = Some d -> d !! slot = Some c ->
  has_room ts t slot = (c <? max_students_per_slot t).
Proof. intros Hd Hc. unfold has_room, usage_of. now rewrite Hd, Hc. Qed.

Lemma scan_slots_hit ts sid t slots a ts' :
  scan_slots ts sid (teacher_id t) (max_students_per_slot t) slots
  = Ok (Some (a, ts')) ->
  exists slot d c,
    List.find (has_room ts t) slots = Some slot /\
    ts !! teacher_id t = Some d /\ d !! slot = Some c /\
    c < max_students_per_slot t /\
    a = assign_student_to_slot sid (teacher_id t) slot c /\
    ts' = <[teacher_id t := <[slot := c + 1]> d]> ts.
Proof.
  induction slots as [| slot rest IH]; simpl; [discriminate |].
  unfold get_count, increment.
  destruct (ts !! teacher_id t) as [d |] eqn:Ed; simpl; [| discriminate].
  destruct (d !! slot) as [c |] eqn:Ec; simpl; [| discriminate].
  rewrite (has_room_lookup ts t slot d c Ed Ec).
  destruct (c <? max_students_per_slot t) eqn:Elt; simpl.
  - intros [= <- <-]. exists slot, d, c. repeat split; auto.
    now apply Z.ltb_lt.
  - intros H. destruct (IH H) as (slot' & d' & c' & Hf & Hd & Hrest).
    exists slot', d', c'. tauto.
Qed.

Lemma scan_slots_miss ts sid t slots :
  scan_slots ts sid (teacher_id t) (max_students_per_slot t) slots = Ok None ->
  List.find (has_room ts t) slots = None.
Proof.
  induction slots as [| slot rest IH]; simpl; [reflexivity |].
  unfold get_count, increment.
  destruct (ts !! teacher_id t) as [d |] eqn:Ed; simpl; [| discriminate].
  destruct (d !! slot) as [c |] eqn:Ec; simpl; [| discriminate].
  rewrite (has_room_lookup ts t slot d c Ed Ec).
  destruct (c <? max_students_per_slot t) eqn:Elt; simpl; [discriminate |].
  intros H. now apply IH.
Qed.

(** No [KeyError] when every scanned slot has a counter. *)
Lemma scan_slots_total ts sid t slots :
  (forall slot, In slot slots -> is_Some (usage_of ts (teacher_id t) slot)) ->
  exists r,
    scan_slots ts sid (teacher_id t) (max_students_per_slot t) slots = Ok r.
Proof.
  induction slots as [| slot rest IH]; simpl; intros Hall; [eauto |].
  destruct (Hall slot (or_introl Logic.eq_refl)) as [c Hc].
  unfold get_count, increment. unfold usage_of in Hc.
  destruct (ts !! teacher_id t) as [d |]; [| discriminate].
  rewrite Hc. simpl.
  destruct (c <? max_students_per_slot t); simpl; eauto.
Qed.

Lemma scan_slots_covered teachers ts sid (student : Student) t :
  covers teachers ts -> In t teachers ->
  exists r,
    scan_slots ts sid (teacher_id t) (max_students_per_slot t)
      (time_overlap (preferred_time_slots student) (available_time_slots t))
    = Ok r.
Proof.
  intros Hc Hin. apply scan_slots_total. intros slot Hs.
  apply time_overlap_In in Hs. apply Hc; tauto.
Qed.

(** ** Loops and their invariant *)

Lemma for_each_app {S X : Type} (body : S -> X -> Result S) xs ys st :
  for_each body st (xs ++ ys)
  = let! st' := for_each body st xs in for_each body st' ys.
Proof.
  revert st. induction xs as [| x xs IH]; intros st; simpl; [reflexivity |].
  destruct (body st x); simpl; auto.
Qed.

(** An invariant indexed by the rows processed so far holds after the loop. *)
Lemma for_each_inv {S X : Type} (body : S -> X -> Result S)
  (I : list X -> S -> Prop) :
  (forall seen st x st', I seen st -> body st x = Ok st' -> I (seen ++ [x]) st') ->
  forall xs seen st st',
    I seen st -> for_each body st xs = Ok st' -> I (seen ++ xs) st'.
Proof.
  intros Hstep. induction xs as [| x xs IH]; intros seen st st' HI; simpl.
  - intros [= <-]. now rewrite app_nil_r.
  - destruct (body st x) as [st1 |] eqn:E; simpl; [| discriminate].
    intros Hrest. replace (seen ++ x :: xs) with ((seen ++ [x]) ++ xs)
      by now rewrite <- app_assoc.
    eapply IH; eauto.
Qed.

Lemma snoc_split {A : Type} (l before after : list A) (x e : A) :
  l ++ [x] = before ++ e :: after ->
  (after = [] /\ before = l /\ e = x) \/
  (exists after', after = after' ++ [x] /\ l = before ++ e :: after').
Proof.
  destruct after as [| y after' _] using rev_ind; intros H.
  - apply app_inj_tail in H as [-> ->]. now left.
  - right. exists after'.
    change (before ++ e :: after' ++ [y])
      with (before ++ (e :: after') ++ [y]) in H.
    rewrite app_assoc in H. apply app_inj_tail in H as [-> ->]. auto.
Qed.

Lemma occupancy_app tid slot l1 l2 :
  occupancy tid slot (l1 ++ l2) = occupancy tid slot l1 + occupancy tid slot l2.
Proof. unfold occupancy. rewrite List.filter_app, length_app. lia. Qed.

Lemma occupancy_entry tid slot sid tid' slot' c :
  occupancy tid slot [assign_student_to_slot sid tid' slot' c]
  = if decide (tid = tid' /\ slot = slot') then 1 else 0.
Proof.
  unfold occupancy, on_pair. simpl.
  destruct (decide (tid = tid' /\ slot = slot')) as [[-> ->] | Hne].
  - now rewrite Z.eqb_refl, bool_decide_eq_true_2.
  - destruct (tid' =? tid) eqn:E; simpl; [| reflexivity].
    apply Z.eqb_eq in E. rewrite bool_decide_eq_false_2; [reflexivity |].
    intros <-. auto.
Qed.

Lemma entry_ok_seen row_ok seen s before e :
  entry_ok row_ok seen before e -> entry_ok row_ok (seen ++ [s]) before e.
Proof.
  intros (st & t & slot & Hs & H). exists st, t, slot.
  split; [apply in_or_app; now left | exact H].
Qed.

Lemma loop_inv_init row_ok teachers :
  loop_inv row_ok [] (init_teacher_slots teachers) [].
Proof.
  split.
  - intros tid slot. now rewrite init_usage_zero.
  - intros [| ? ?] e after H; discriminate.
  - apply sublist_nil_l.
Qed.

Lemma loop_inv_skip row_ok seen ts trace s :
  loop_inv row_ok seen ts trace -> loop_inv row_ok (seen ++ [s]) ts trace.
Proof.
  intros [Hu He Hs]. split.
  - exact Hu.
  - intros before e after H. apply entry_ok_seen. eauto.
  - rewrite map_app. now apply sublist_inserts_r.
Qed.

Lemma loop_inv_commit (row_ok : Path -> Student -> Teacher -> Prop)
  seen (ts : gmap Z (gmap string Z)) trace p s t slot d c :
  loop_inv row_ok seen ts trace ->
  row_ok p s t ->
  In slot (preferred_time_slots s) -> In slot (available_time_slots t) ->
  ts !! teacher_id t = Some d -> d !! slot = Some c ->
  c < max_students_per_slot t ->
  loop_inv row_ok (seen ++ [s])
    (<[teacher_id t := <[slot := c + 1]> d]> ts)
    (trace ++ [(p, assign_student_to_slot (student_id s) (teacher_id t) slot c)]).
Proof.
  intros [Hu He Hs] Hrow Hpref Havail Hd Hc Hlt.
  assert (occupancy (teacher_id t) slot (List.map snd trace) = c) as Hocc.
  { rewrite Hu. unfold usage_of. now rewrite Hd, Hc. }
  split.
  - intros tid' slot'. rewrite map_app, occupancy_app. simpl.
    rewrite occupancy_entry, (usage_of_bump ts) by assumption.
    destruct (decide (tid' = teacher_id t /\ slot' = slot)) as [[-> ->] | Hne].
    + rewrite Hocc. reflexivity.
    + rewrite Hu. lia.
  - intros before e after H. apply snoc_split in H.
    destruct H as [(-> & -> & ->) | (after' & -> & ->)].
    + exists s, t, slot. rewrite Hocc. simpl.
      repeat split; auto. apply in_or_app. right. now left.
    + apply entry_ok_seen. eauto.
  - rewrite !map_app. simpl. now apply sublist_app.
Qed.

(** The effect of a successful slot scan on the invariant. *)
Lemma loop_inv_scan (row_ok : Path -> Student -> Teacher -> Prop)
  seen ts trace p s t a ts' :
  loop_inv row_ok seen ts trace ->
  row_ok p s t ->
  scan_slots ts (student_id s) (teacher_id t) (max_students_per_slot t)
    (time_overlap (preferred_time_slots s) (available_time_slots t))
  = Ok (Some (a, ts')) ->
  loop_inv row_ok (seen ++ [s]) ts' (trace ++ [(p, a)]).
Proof.
  intros Hinv Hrow Hscan.
  apply scan_slots_hit in Hscan
    as (slot & d & c & Hf & Hd & Hc & Hlt & -> & ->).
  apply find_some in Hf as [Hslot _]. apply time_overlap_In in Hslot.
  eapply loop_inv_commit; eauto; tauto.
Qed.

(** ** The loop bodies preserve the invariant *)

Lemma greedy_tagged_snd schedule : List.map snd (greedy_tagged schedule) = schedule.
Proof.
  unfold greedy_tagged. rewrite List.map_map. simpl. apply List.map_id.
Qed.

Lemma scan_teachers_hit ts s l a ts' :
  scan_teachers ts s l = Ok (Some (a, ts')) ->
  exists t,
    In t l /\ overlaps (subjects s) (teacher_subjects t) = true /\
    scan_slots ts (student_id s) (teacher_id t) (max_students_per_slot t)
      (time_overlap (preferred_time_slots s) (available_time_slots t))
    = Ok (Some (a, ts')).
Proof.
  induction l as [| t l IH]; cbn [scan_teachers]; [discriminate |].
  rewrite subject_overlap_typed. cbn [bind].
  destruct (overlaps (subjects s) (teacher_subjects t)) eqn:Eov.
  - rewrite available_time_overlap_typed. cbn [bind].
    destruct (scan_slots _ _ _ _ _) as [[[a0 ts0] |] |] eqn:Escan; cbn [bind].
    + intros [= <- <-]. exists t. split; [now left | auto].
    + intros H. destruct (IH H) as (t' & ? & ?).
      exists t'. split; [now right | auto].
    + discriminate.
  - intros H. destruct (IH H) as (t' & ? & ?).
    exists t'. split; [now right | auto].
Qed.

Lemma baseline_step_inv teachers seen st s st' :
  loop_inv (scanned_row teachers) seen (fst st) (greedy_tagged (snd st)) ->
  baseline_step teachers st s = Ok st' ->
  loop_inv (scanned_row teachers) (seen ++ [s]) (fst st')
    (greedy_tagged (snd st')).
Proof.
  intros Hinv. unfold baseline_step.
  destruct (scan_teachers (fst st) s teachers) as [[[a ts'] |] |] eqn:E;
    simpl; [| | discriminate]; intros [= <-]; simpl.
  - apply scan_teachers_hit in E as (t & Hin & Hov & Hscan).
    unfold greedy_tagged. rewrite map_app. simpl.
    eapply loop_inv_scan; eauto. now split.
  - now apply loop_inv_skip.
Qed.

Lemma baseline_loop_inv teachers pre st :
  for_each (baseline_step teachers) (init_teacher_slots teachers, []) pre = Ok st ->
  loop_inv (scanned_row teachers) pre (fst st) (greedy_tagged (snd st)).
Proof.
  intros H.
  exact (for_each_inv (baseline_step teachers)
           (fun seen st => loop_inv (scanned_row teachers) seen (fst st)
                             (greedy_tagged (snd st)))
           (baseline_step_inv teachers) pre []
           (init_teacher_slots teachers, []) st (loop_inv_init _ teachers) H).
Qed.

Lemma candidate_rows_filter s teachers :
  candidate_rows s teachers
  = Ok (List.filter (fun t => overlaps (subjects s) (teacher_subjects t)) teachers).
Proof.
  induction teachers as [| t l IH]; cbn [candidate_rows]; [reflexivity |].
  rewrite subject_overlap_typed, IH. cbn [bind List.filter].
  now destruct (overlaps (subjects s) (teacher_subjects t)).
Qed.

(** Every row of the sorted candidate frame is a teacher row with subject
    overlap, carrying its weight. *)
Lemma candidate_order_In sort_values w s teachers cands t q :
  sorts_descending sort_values ->
  candidate_order sort_values w s teachers = Ok cands ->
  In (t, q) cands <->
  In t teachers /\ overlaps (subjects s) (teacher_subjects t) = true /\
  q = w (teacher_id t).
Proof.
  intros Hsort. unfold candidate_order. rewrite candidate_rows_filter. simpl.
  intros [= <-]. destruct (Hsort (List.map (fun t => (t, w (teacher_id t)))
    (List.filter (fun t => overlaps (subjects s) (teacher_subjects t)) teachers)))
    as [Hperm _].
  split.
  - intros Hin. apply (Permutation_in _ Hperm) in Hin.
    apply in_map_iff in Hin as (t' & [= -> <-] & Hin).
    apply filter_In in Hin. tauto.
  - intros (Hin & Hov & ->). apply (Permutation_in _ (Permutation_sym Hperm)).
    apply in_map_iff. exists t. split; [reflexivity |].
    apply filter_In. auto.
Qed.

Lemma scan_candidates_hit ts s cands a ts' :
  scan_candidates ts s cands = Ok (Some (a, ts')) ->
  exists t q,
    In (t, q) cands /\
    scan_slots ts (student_id s) (teacher_id t) (max_students_per_slot t)
      (time_overlap (preferred_time_slots s) (available_time_slots t))
    = Ok (Some (a, ts')).
Proof.
  induction cands as [| [t q] l IH]; cbn [scan_candidates]; [discriminate |].
  rewrite available_time_overlap_typed. cbn [bind].
  destruct (scan_slots _ _ _ _ _) as [[[a0 ts0] |] |] eqn:Escan; cbn [bind].
  - intros [= <- <-]. exists t, q. split; [now left | auto].
  - intros H. destruct (IH H) as (t' & q' & ? & ?).
    exists t', q'. split; [now right | auto].
  - discriminate.
Qed.

Lemma fallback_hit clf ts s teachers a ts' :
  fallback clf ts s teachers = Ok (Some (a, ts')) ->
  exists t,
    In t teachers /\ teacher_id t = clf (subjects s) /\
    scan_slots ts (student_id s) (teacher_id t) (max_students_per_slot t)
      (time_overlap (preferred_time_slots s) (available_time_slots t))
    = Ok (Some (a, ts')).
Proof.
  unfold fallback.
  destruct (List.filter _ teachers) as [| t rest] eqn:E; [discriminate |].
  assert (In t (List.filter (fun t => teacher_id t =? clf (subjects s)) teachers))
    as Hin by (rewrite E; now left).
  apply filter_In in Hin as [Hin Hid]. apply Z.eqb_eq in Hid.
  rewrite available_time_overlap_typed. cbn [bind]. rewrite <- Hid.
  intros H. exists t. auto.
Qed.

(** The feedback iteration preserves the invariant for any record
    [row_ok] that holds of the scanned candidates and of the teacher rows. *)
Lemma feedback_step_inv (row_ok : Path -> Student -> Teacher -> Prop)
  sort_values w clf teachers seen st s st' :
  (forall cands t q,
      candidate_order sort_values w s teachers = Ok cands ->
      In (t, q) cands -> row_ok Greedy s t) ->
  (forall t, In t teachers -> row_ok Fallback s t) ->
  loop_inv row_ok seen (fst st) (snd st) ->
  feedback_step sort_values w clf teachers st s = Ok st' ->
  loop_inv row_ok (seen ++ [s]) (fst st') (snd st').
Proof.
  intros Hgreedy Hfallback Hinv. unfold feedback_step.
  destruct (candidate_order sort_values w s teachers) as [cands |] eqn:Ec;
    simpl; [| discriminate].
  destruct (scan_candidates (fst st) s cands) as [[[a ts'] |] |] eqn:Es;
    simpl; [| | discriminate].
  - intros [= <-]. simpl.
    apply scan_candidates_hit in Es as (t & q & Hin & Hscan).
    eapply loop_inv_scan; eauto.
  - destruct (fallback clf (fst st) s teachers) as [[[a ts'] |] |] eqn:Ef;
      simpl; [| | discriminate]; intros [= <-]; simpl.
    + apply fallback_hit in Ef as (t & Hin & _ & Hscan).
      eapply loop_inv_scan; eauto.
    + now apply loop_inv_skip.
Qed.

Lemma feedback_loop_inv (row_ok : Path -> Student -> Teacher -> Prop)
  sort_values w clf teachers pre st :
  (forall s cands t q,
      candidate_order sort_values w s teachers = Ok cands ->
      In (t, q) cands -> row_ok Greedy s t) ->
  (forall s t, In t teachers -> row_ok Fallback s t) ->
  for_each (feedback_step sort_values w clf teachers)
    (init_teacher_slots teachers, []) pre = Ok st ->
  loop_inv row_ok pre (fst st) (snd st).
Proof.
  intros Hgreedy Hfallback H.
  exact (for_each_inv (feedback_step sort_values w clf teachers)
           (fun seen st => loop_inv row_ok seen (fst st) (snd st))
           (fun seen st x st' =>
              feedback_step_inv row_ok sort_values w clf teachers seen st x st'
                (Hgreedy x) (Hfallback x))
           pre [] (init_teacher_slots teachers, []) st
           (loop_inv_init _ teachers) H).
Qed.

(** Without any assumption on [sort_values]. *)
Lemma feedback_loop_inv_any sort_values w clf teachers pre st :
  for_each (feedback_step sort_values w clf teachers)
    (init_teacher_slots teachers, []) pre = Ok st ->
  loop_inv any_row pre (fst st) (snd st).
Proof. apply feedback_loop_inv; intros; exact I. Qed.

(** With a [sort_values] that returns the rows it was given. *)
Lemma feedback_loop_inv_sorted sort_values w clf teachers pre st :
  sorts_descending sort_values ->
  for_each (feedback_step sort_values w clf teachers)
    (init_teacher_slots teachers, []) pre = Ok st ->
  loop_inv (scanned_row teachers) pre (fst st) (snd st).
Proof.
  intros Hsort. apply feedback_loop_inv.
  - intros s cands t q Hc Hin.
    apply (candidate_order_In _ _ _ _ _ _ _ Hsort Hc) in Hin. split; tauto.
  - intros s t Hin. split; [exact Hin | discriminate].
Qed.

(** The runs, unfolded to their loops. *)
Lemma baseline_run students teachers schedule :
  match_students_to_teachers students teachers = Ok schedule ->
  exists ts,
    for_each (baseline_step teachers) (init_teacher_slots teachers, []) students
    = Ok (ts, schedule).
Proof.
  unfold match_students_to_teachers.
  destruct (for_each _ _ _) as [[ts sch] |]; simpl; [| discriminate].
  intros [= <-]. eauto.
Qed.

Lemma feedback_run predict sort_values students teachers fb trace :
  feedback_trace predict sort_values students teachers fb = Ok trace ->
  exists initial_schedule clf ts,
    match_students_to_teachers students teachers = Ok initial_schedule /\
    train_teacher_recommender predict initial_schedule students = Ok clf /\
    for_each (feedback_step sort_values (teacher_weights fb) clf teachers)
      (init_teacher_slots teachers, []) students = Ok (ts, trace).
Proof.
  unfold feedback_trace.
  destruct (match_students_to_teachers students teachers) as [sch0 |];
    cbn [bind]; [| discriminate].
  destruct (train_teacher_recommender predict sch0 students) as [clf |] eqn:Et;
    cbn [bind]; [| discriminate].
  destruct (for_each _ _ _) as [[ts tr] |] eqn:E; cbn [bind snd];
    [| discriminate].
  intros [= <-]. exists sch0, clf, ts. auto.
Qed.

Lemma feedback_schedule predict sort_values students teachers fb schedule :
  match_with_feedback_loop predict sort_values students teachers fb = Ok schedule ->
  exists trace,
    feedback_trace predict sort_values students teachers fb = Ok trace /\
    schedule = List.map snd trace.
Proof.
  unfold match_with_feedback_loop.
  destruct (feedback_trace _ _ _ _ _) as [trace |]; simpl; [| discriminate].
  intros [= <-]. eauto.
Qed.

Lemma baseline_inv students teachers schedule :
  match_students_to_teachers students teachers = Ok schedule ->
  exists ts,
    loop_inv (scanned_row teachers) students ts (greedy_tagged schedule).
Proof.
  intros H. apply baseline_run in H as [ts H].
  exists ts. exact (baseline_loop_inv _ _ _ H).
Qed.

Lemma feedback_inv predict sort_values students teachers fb trace :
  sorts_descending sort_values ->
  feedback_trace predict sort_values students teachers fb = Ok trace ->
  exists ts, loop_inv (scanned_row teachers) students ts trace.
Proof.
  intros Hsort H. apply feedback_run in H as (sch0 & clf & ts & _ & _ & H).
  exists ts. exact (feedback_loop_inv_sorted _ _ _ _ _ _ Hsort H).
Qed.

Lemma feedback_inv_any predict sort_values students teachers fb trace :
  feedback_trace predict sort_values students teachers fb = Ok trace ->
  exists ts, loop_inv any_row students ts trace.
Proof.
  intros H. apply feedback_run in H as (sch0 & clf & ts & _ & _ & H).
  exists ts. exact (feedback_loop_inv_any _ _ _ _ _ _ H).
Qed.

(** ** The instances meet the library contracts *)

Lemma insert_desc_perm x l : Permutation (insert_desc x l) (x :: l).
Proof.
  induction l as [| y l IH]; simpl; [apply Permutation_refl |].
  destruct (Qle_bool (snd y) (snd x)); [apply Permutation_refl |].
  eapply perm_trans; [apply perm_skip, IH | apply perm_swap].
Qed.

Lemma insert_desc_sorted x l :
  StronglySorted weight_ge l -> StronglySorted weight_ge (insert_desc x l).
Proof.
  induction 1 as [| y l Hl IH Hy]; simpl.
  - repeat constructor.
  - destruct (Qle_bool (snd y) (snd x)) eqn:E.
    + apply Qle_bool_iff in E. constructor; [now constructor |].
      constructor; [exact E |].
      eapply List.Forall_impl; [| exact Hy]. intros z Hz.
      unfold weight_ge in *. eapply Qle_trans; eauto.
    + constructor; [exact IH |].
      apply (Permutation_Forall (Permutation_sym (insert_desc_perm x l))).
      constructor; [| exact Hy].
      unfold weight_ge. apply Qlt_le_weak, Qnot_le_lt.
      intros Hle. apply Qle_bool_iff in Hle. congruence.
Qed.

Lemma stable_sort_desc_sorts : sorts_descending stable_sort_desc.
Proof.
  intros rows. unfold stable_sort_desc.
  induction rows as [| x rows [IHp IHs]]; simpl.
  - split; constructor.
  - split.
    + eapply perm_trans; [apply insert_desc_perm | now apply perm_skip].
    + now apply insert_desc_sorted.
Qed.

Lemma predict_first_label_ok : predicts_training_labels predict_first_label.
Proof.
  intros [| [subj label] rest] query Hne; [congruence |]. now left.
Qed.

(** ** What the invariant says about a schedule *)

Lemma trace_entry_of_schedule (trace : list (Path * Assignment)) pre a post :
  List.map snd trace = pre ++ a :: post ->
  exists before e after,
    trace = before ++ e :: after /\ List.map snd before = pre /\ snd e = a.
Proof.
  intros H. apply map_eq_app in H as (before & rest & -> & Hb & Hr).
  apply map_eq_cons in Hr as (e & after & -> & He & _).
  exists before, e, after. auto.
Qed.

(** The facts recorded for the entry [a] of a schedule, [pre] being the
    entries before it. *)
Lemma schedule_entry row_ok seen ts trace pre a post :
  loop_inv row_ok seen ts trace ->
  List.map snd trace = pre ++ a :: post ->
  exists p student teacher,
    In (p, a) trace /\ In student seen /\ row_ok p student teacher /\
    slot_sound student teacher a /\
    occupancy (a_teacher_id a) (time_slot a) pre < max_students_per_slot teacher /\
    lesson_type a
    = if occupancy (a_teacher_id a) (time_slot a) pre =? 0
      then "1:1" else "group".
Proof.
  intros Hinv H.
  apply trace_entry_of_schedule in H as (before & [p a'] & after & -> & <- & Ha).
  simpl in Ha. subst a'.
  destruct (inv_entries _ _ _ _ Hinv before (p, a) after Logic.eq_refl)
    as (s & t & slot & Hs & Hrow & Hpref & Havail & Hlt & Hentry).
  simpl in Hrow, Hentry. exists p, s, t. rewrite Hentry. simpl.
  repeat split; auto.
  apply in_or_app. right. now left.
Qed.

Lemma trace_entry row_ok seen ts trace before p a after :
  loop_inv row_ok seen ts trace ->
  trace = before ++ (p, a) :: after ->
  exists student teacher,
    In student seen /\ row_ok p student teacher /\
    slot_sound student teacher a /\
    occupancy (teacher_id teacher) (time_slot a) (List.map snd before)
      < max_students_per_slot teacher.
Proof.
  intros Hinv H.
  destruct (inv_entries _ _ _ _ Hinv before (p, a) after H)
    as (s & t & slot & Hs & Hrow & Hpref & Havail & Hlt & Hentry).
  simpl in Hrow, Hentry. exists s, t. rewrite Hentry. simpl.
  repeat split; auto.
Qed.

Lemma loop_inv_capacity teachers seen ts trace :
  loop_inv (scanned_row teachers) seen ts trace ->
  List.NoDup (List.map teacher_id teachers) ->
  (forall t, In t teachers -> 0 <= max_students_per_slot t) ->
  forall t slot,
    In t teachers ->
    occupancy (teacher_id t) slot (List.map snd trace) <= max_students_per_slot t.
Proof.
  intros Hinv Hnd Hcap t slot Hin. pose proof (inv_entries _ _ _ _ Hinv) as He.
  clear Hinv. induction trace as [| e trace IH] using rev_ind.
  - simpl. unfold occupancy. simpl. auto.
  - destruct (He trace e [] Logic.eq_refl)
      as (s & t' & slot' & _ & [Ht' _] & _ & _ & Hlt & Hentry).
    rewrite map_app, occupancy_app. simpl. rewrite Hentry, occupancy_entry.
    destruct (decide (teacher_id t = teacher_id t' /\ slot = slot'))
      as [[Hid ->] | Hne].
    + assert (t = t') as <- by eauto using NoDup_teacher_eq. lia.
    + assert (occupancy (teacher_id t) slot (List.map snd trace)
              <= max_students_per_slot t); [| lia].
      apply IH. intros before e0 after ->.
      apply (He before e0 (after ++ [e])). now rewrite <- app_assoc.
Qed.

Lemma loop_inv_table_capacity teachers seen ts trace :
  loop_inv (scanned_row teachers) seen ts trace ->
  List.NoDup (List.map teacher_id teachers) ->
  (forall t, In t teachers -> 0 <= max_students_per_slot t) ->
  forall t slot,
    In t teachers ->
    default 0 (usage_of ts (teacher_id t) slot) <= max_students_per_slot t.
Proof.
  intros Hinv Hnd Hcap t slot Hin. rewrite <- (inv_usage _ _ _ _ Hinv).
  eapply loop_inv_capacity; eauto.
Qed.

Lemma loop_inv_unique row_ok seen ts trace :
  loop_inv row_ok seen ts trace ->
  List.NoDup (List.map student_id seen) ->
  List.NoDup (List.map a_student_id (List.map snd trace)).
Proof.
  intros Hinv Hnd. rewrite List.map_map. apply NoDup_ListNoDup.
  eapply sublist_NoDup; [| apply (inv_students _ _ _ _ Hinv)].
  now apply NoDup_ListNoDup.
Qed.

(** ** Invariants of the two matchers *)

(** C1. With pairwise distinct teacher ids and non-negative capacities, in
    every run of either matcher the number of entries of the returned
    schedule on a teacher and slot is at most the teacher's
    [max_students_per_slot]; the same bound holds for the schedule and for the
    usage table after every prefix of the student loop. *)
Theorem capacity_never_exceeded predict sort_values students teachers fb :
  sorts_descending sort_values ->
  List.NoDup (List.map teacher_id teachers) ->
  (forall t, In t teachers -> 0 <= max_students_per_slot t) ->
  (forall schedule,
      match_students_to_teachers students teachers = Ok schedule ->
      forall t slot, In t teachers ->
        occupancy (teacher_id t) slot schedule <= max_students_per_slot t) /\
  (forall schedule,
      match_with_feedback_loop predict sort_values students teachers fb
      = Ok schedule ->
      forall t slot, In t teachers ->
        occupancy (teacher_id t) slot schedule <= max_students_per_slot t) /\
  (forall pre post st,
      students = pre ++ post ->
      for_each (baseline_step teachers) (init_teacher_slots teachers, []) pre
      = Ok st ->
      forall t slot, In t teachers ->
        occupancy (teacher_id t) slot (snd st) <= max_students_per_slot t /\
        default 0 (usage_of (fst st) (teacher_id t) slot)
          <= max_students_per_slot t) /\
  (forall weights clf pre post st,
      students = pre ++ post ->
      for_each (feedback_step sort_values weights clf teachers)
        (init_teacher_slots teachers, []) pre = Ok st ->
      forall t slot, In t teachers ->
        occupancy (teacher_id t) slot (List.map snd (snd st))
          <= max_students_per_slot t /\
        default 0 (usage_of (fst st) (teacher_id t) slot)
          <= max_students_per_slot t).
Proof.
  intros Hsort Hnd Hcap. split; [| split; [| split]].
  - intros schedule Hrun t slot Hin.
    apply baseline_inv in Hrun as [ts Hinv].
    rewrite <- (greedy_tagged_snd schedule).
    eapply loop_inv_capacity; eauto.
  - intros schedule Hrun t slot Hin.
    apply feedback_schedule in Hrun as (trace & Hrun & ->).
    apply (feedback_inv _ _ _ _ _ _ Hsort) in Hrun as [ts Hinv].
    eapply loop_inv_capacity; eauto.
  - intros pre post st _ Hloop t slot Hin.
    apply baseline_loop_inv in Hloop. split.
    + rewrite <- (greedy_tagged_snd (snd st)).
      eapply loop_inv_capacity; eauto.
    + eapply loop_inv_table_capacity; eauto.
  - intros weights clf pre post st _ Hloop t slot Hin.
    apply (feedback_loop_inv_sorted _ _ _ _ _ _ Hsort) in Hloop. split.
    + eapply loop_inv_capacity; eauto.
    + eapply loop_inv_table_capacity; eauto.
Qed.

(** C3. Given students with pairwise distinct ids, no student id appears in
    more than one entry of the schedule either matcher returns. *)
Theorem student_assigned_at_most_once predict sort_values students teachers fb :
  List.NoDup (List.map student_id students) ->
  (forall schedule,
      match_students_to_teachers students teachers = Ok schedule ->
      List.NoDup (List.map a_student_id schedule)) /\
  (forall schedule,
      match_with_feedback_loop predict sort_values students teachers fb
      = Ok schedule ->
      List.NoDup (List.map a_student_id schedule)).
Proof.
  intros Hnd. split; intros schedule Hrun.
  - apply baseline_inv in Hrun as [ts Hinv].
    rewrite <- (greedy_tagged_snd schedule).
    eapply loop_inv_unique; eauto.
  - apply feedback_schedule in Hrun as (trace & Hrun & ->).
    apply feedback_inv_any in Hrun as [ts Hinv].
    eapply loop_inv_unique; eauto.
Qed.

Lemma lesson_type_by_occupancy row_ok seen ts trace pre a post :
  loop_inv row_ok seen ts trace ->
  List.map snd trace = pre ++ a :: post ->
  (occupancy (a_teacher_id a) (time_slot a) pre = 0 -> lesson_type a = "1:1") /\
  (occupancy (a_teacher_id a) (time_slot a) pre <> 0 -> lesson_type a = "group").
Proof.
  intros Hinv H.
  destruct (schedule_entry _ _ _ _ _ _ _ Hinv H)
    as (p & s & t & _ & _ & _ & _ & _ & Hlt).
  rewrite Hlt. split; intros Hocc.
  - now rewrite Hocc.
  - apply Z.eqb_neq in Hocc. now rewrite Hocc.
Qed.

(** C4. In the schedule of either matcher, an entry with no earlier entry on
    the same teacher id and slot has lesson type "1:1", and an entry with an
    earlier one on the same pair has lesson type "group". *)
Theorem lesson_type_rule predict sort_values students teachers fb :
  (forall schedule pre a post,
      match_students_to_teachers students teachers = Ok schedule ->
      schedule = pre ++ a :: post ->
      (occupancy (a_teacher_id a) (time_slot a) pre = 0 ->
       lesson_type a = "1:1") /\
      (occupancy (a_teacher_id a) (time_slot a) pre <> 0 ->
       lesson_type a = "group")) /\
  (forall schedule pre a post,
      match_with_feedback_loop predict sort_values students teachers fb
      = Ok schedule ->
      schedule = pre ++ a :: post ->
      (occupancy (a_teacher_id a) (time_slot a) pre = 0 ->
       lesson_type a = "1:1") /\
      (occupancy (a_teacher_id a) (time_slot a) pre <> 0 ->
       lesson_type a = "group")).
Proof.
  split; intros schedule pre a post Hrun Hsplit.
  - apply baseline_inv in Hrun as [ts Hinv].
    eapply lesson_type_by_occupancy; [exact Hinv |].
    rewrite greedy_tagged_snd. exact Hsplit.
  - apply feedback_schedule in Hrun as (trace & Hrun & ->).
    apply feedback_inv_any in Hrun as [ts Hinv].
    eapply lesson_type_by_occupancy; eauto.
Qed.

Lemma greedy_entry_sound teachers seen ts trace a :
  loop_inv (scanned_row teachers) seen ts trace ->
  In (Greedy, a) trace ->
  exists student teacher,
    In student seen /\ In teacher teachers /\
    slot_sound student teacher a /\ subjects_intersect student teacher.
Proof.
  intros Hinv Hin. apply in_split in Hin as (before & after & H).
  destruct (trace_entry _ _ _ _ _ _ _ _ Hinv H)
    as (s & t & Hs & [Ht Hov] & Hsound & _).
  exists s, t. split; [exact Hs | split; [exact Ht | split; [exact Hsound |]]].
  apply overlaps_true. now apply Hov.
Qed.

(** C6. Every entry of the baseline schedule, and every entry the greedy
    branch of the feedback loop appended, joins a student row and a teacher
    row whose subject lists intersect, on a slot that is both in the student's
    preferred slots and in the teacher's available slots. *)
Theorem greedy_path_sound predict sort_values students teachers fb :
  sorts_descending sort_values ->
  (forall schedule a,
      match_students_to_teachers students teachers = Ok schedule ->
      In a schedule ->
      exists student teacher,
        In student students /\ In teacher teachers /\
        slot_sound student teacher a /\ subjects_intersect student teacher) /\
  (forall trace a,
      feedback_trace predict sort_values students teachers fb = Ok trace ->
      In (Greedy, a) trace ->
      exists student teacher,
        In student students /\ In teacher teachers /\
        slot_sound student teacher a /\ subjects_intersect student teacher).
Proof.
  intros Hsort. split.
  - intros schedule a Hrun Hin. apply baseline_inv in Hrun as [ts Hinv].
    eapply greedy_entry_sound; [exact Hinv |].
    unfold greedy_tagged. apply in_map_iff. eauto.
  - intros trace a Hrun Hin.
    apply (feedback_inv _ _ _ _ _ _ Hsort) in Hrun as [ts Hinv].
    eapply greedy_entry_sound; eauto.
Qed.

(** C10. In the feedback loop an entry appended by the fallback branch is on
    a slot of both the student's preferred slots and the predicted teacher's
    available slots, and was committed while the occupancy of that teacher
    and slot, counted over all earlier entries, was below the teacher's
    capacity; so every entry of the final schedule, of either branch, is
    slot-sound, and the capacity bound holds for the whole schedule. *)
Theorem fallback_path_sound predict sort_values students teachers fb trace :
  sorts_descending sort_values ->
  feedback_trace predict sort_values students teachers fb = Ok trace ->
  (forall before a after,
      trace = before ++ (Fallback, a) :: after ->
      exists student teacher,
        In student students /\ In teacher teachers /\
        slot_sound student teacher a /\
        occupancy (teacher_id teacher) (time_slot a) (List.map snd before)
          < max_students_per_slot teacher) /\
  (forall p a,
      In (p, a) trace ->
      exists student teacher,
        In student students /\ In teacher teachers /\
        slot_sound student teacher a) /\
  (List.NoDup (List.map teacher_id teachers) ->
   (forall t, In t teachers -> 0 <= max_students_per_slot t) ->
   forall t slot, In t teachers ->
     occupancy (teacher_id t) slot (List.map snd trace)
       <= max_students_per_slot t).
Proof.
  intros Hsort Hrun.
  apply (feedback_inv _ _ _ _ _ _ Hsort) in Hrun as [ts Hinv].
  repeat split.
  - intros before a after H.
    destruct (trace_entry _ _ _ _ _ _ _ _ Hinv H)
      as (s & t & Hs & [Ht _] & Hsound & Hlt).
    exists s, t. auto.
  - intros p a Hin. apply in_split in Hin as (before & after & H).
    destruct (trace_entry _ _ _ _ _ _ _ _ Hinv H)
      as (s & t & Hs & [Ht _] & Hsound & _).
    exists s, t. auto.
  - intros Hnd Hcap. eapply loop_inv_capacity; eauto.
Qed.

(** ** No [KeyError] on a table that covers the teacher rows *)

Lemma first_free_slot_hit ts s t a ts' :
  scan_slots ts (student_id s) (teacher_id t) (max_students_per_slot t)
    (time_overlap (preferred_time_slots s) (available_time_slots t))
  = Ok (Some (a, ts')) ->
  exists slot,
    first_free_slot ts s t = Some slot /\
    forall schedule,
      commit (ts, schedule) s t slot = (ts', schedule ++ [a]).
Proof.
  intros H. apply scan_slots_hit in H
    as (slot & d & c & Hf & Hd & Hc & _ & -> & ->).
  exists slot. split; [exact Hf |].
  intros schedule. unfold commit. simpl. now rewrite Hd, Hc.
Qed.

Lemma first_free_slot_miss ts s t :
  scan_slots ts (student_id s) (teacher_id t) (max_students_per_slot t)
    (time_overlap (preferred_time_slots s) (available_time_slots t))
  = Ok None ->
  first_free_slot ts s t = None.
Proof. apply scan_slots_miss. Qed.

Lemma scan_teachers_first_fit teachers ts schedule s l :
  covers teachers ts -> incl l teachers ->
  exists hit,
    scan_teachers ts s l = Ok hit /\
    step_outcome (ts, schedule) hit = first_fit_step l (ts, schedule) s.
Proof.
  intros Hc. induction l as [| t l IH]; intros Hincl.
  - exists None. auto.
  - assert (In t teachers) as Hin by (apply Hincl; now left).
    assert (incl l teachers) as Hl by (intros x Hx; apply Hincl; now right).
    destruct (IH Hl) as (hit & Hscan & Hout).
    cbn [scan_teachers]. unfold first_fit_step in *. cbn [List.find fst].
    unfold can_take at 1. cbn [fst] in Hout.
    rewrite subject_overlap_typed. cbn [bind].
    destruct (overlaps (subjects s) (teacher_subjects t)); cbn [andb];
      [| exists hit; auto].
    rewrite available_time_overlap_typed. cbn [bind].
    destruct (scan_slots_covered teachers ts (student_id s) s t Hc Hin)
      as [[[a ts'] |] Hslots]; rewrite Hslots; cbn [bind].
    + apply first_free_slot_hit in Hslots as (slot & Hf & Hcommit).
      exists (Some (a, ts')). rewrite !Hf. split; [reflexivity |].
      cbn [step_outcome snd]. rewrite ?Hf, Hcommit. reflexivity.
    + apply first_free_slot_miss in Hslots. rewrite Hslots.
      exists hit. auto.
Qed.

Lemma baseline_step_first_fit teachers st s :
  covers teachers (fst st) ->
  baseline_step teachers st s = Ok (first_fit_step teachers st s).
Proof.
  intros Hc. destruct st as [ts schedule]. unfold baseline_step.
  destruct (scan_teachers_first_fit teachers ts schedule s teachers Hc
              (incl_refl _)) as (hit & Hscan & Hout).
  cbn [fst snd] in *. rewrite Hscan. cbn [bind]. rewrite <- Hout.
  destruct hit as [[a ts'] |]; reflexivity.
Qed.

Lemma commit_covers teachers st s t slot :
  covers teachers (fst st) -> covers teachers (fst (commit st s t slot)).
Proof.
  intros Hc. unfold commit.
  destruct (fst st !! teacher_id t) as [d |] eqn:Ed; [| exact Hc].
  destruct (d !! slot) as [c |]; [| exact Hc].
  cbn [fst]. now apply covers_bump.
Qed.

Lemma first_fit_step_covers teachers st s :
  covers teachers (fst st) -> covers teachers (fst (first_fit_step teachers st s)).
Proof.
  intros Hc. unfold first_fit_step.
  destruct (List.find _ teachers) as [t |]; [| exact Hc].
  destruct (first_free_slot (fst st) s t) as [slot |]; [| exact Hc].
  now apply commit_covers.
Qed.

Lemma baseline_loop_first_fit teachers students st :
  covers teachers (fst st) ->
  for_each (baseline_step teachers) st students
  = Ok (fold_left (first_fit_step teachers) students st).
Proof.
  revert st. induction students as [| s students IH]; intros st Hc;
    cbn [for_each fold_left]; [reflexivity |].
  rewrite baseline_step_first_fit by assumption. cbn [bind].
  apply IH. now apply first_fit_step_covers.
Qed.

(** ** The feedback loop raises nothing once training succeeded *)

Lemma scan_hit_covers teachers ts sid t slots a ts' :
  covers teachers ts ->
  scan_slots ts sid (teacher_id t) (max_students_per_slot t) slots
  = Ok (Some (a, ts')) ->
  covers teachers ts'.
Proof.
  intros Hc H. apply scan_slots_hit in H as (slot & d & c & _ & Hd & _ & _ & _ & ->).
  now apply covers_bump.
Qed.

Lemma scan_candidates_total teachers ts s cands :
  covers teachers ts ->
  (forall t q, In (t, q) cands -> In t teachers) ->
  exists hit, scan_candidates ts s cands = Ok hit.
Proof.
  intros Hc. induction cands as [| [t q] l IH]; intros Hin;
    cbn [scan_candidates]; [eauto |].
  rewrite available_time_overlap_typed. cbn [bind].
  destruct (scan_slots_covered teachers ts (student_id s) s t Hc
              (Hin t q (or_introl Logic.eq_refl))) as [[r |] Hslots];
    rewrite Hslots; cbn [bind]; [eauto |].
  apply IH. intros t' q' H. apply (Hin t' q'). now right.
Qed.

Lemma scan_candidates_covers teachers ts s cands a ts' :
  covers teachers ts ->
  scan_candidates ts s cands = Ok (Some (a, ts')) -> covers teachers ts'.
Proof.
  intros Hc H. apply scan_candidates_hit in H as (t & q & _ & H).
  eapply scan_hit_covers; eauto.
Qed.

(** The lookup [.iloc[0]] raises exactly when no row has the predicted id. *)
Lemma fallback_absent clf ts s teachers :
  ~ In (clf (subjects s)) (List.map teacher_id teachers) ->
  fallback clf ts s teachers = Raise IndexError.
Proof.
  intros Habs. unfold fallback.
  destruct (List.filter _ teachers) as [| t rest] eqn:E; [reflexivity |].
  exfalso. apply Habs.
  assert (In t (List.filter (fun t => teacher_id t =? clf (subjects s)) teachers))
    as Hin by (rewrite E; now left).
  apply filter_In in Hin as [Hin Hid]. apply Z.eqb_eq in Hid.
  rewrite <- Hid. now apply in_map.
Qed.

Lemma fallback_total teachers clf ts s :
  covers teachers ts ->
  In (clf (subjects s)) (List.map teacher_id teachers) ->
  exists hit, fallback clf ts s teachers = Ok hit.
Proof.
  intros Hc Hin. unfold fallback.
  destruct (List.filter _ teachers) as [| t rest] eqn:E.
  - exfalso. apply in_map_iff in Hin as (t & Hid & Hin).
    assert (In t (List.filter (fun t => teacher_id t =? clf (subjects s)) teachers))
      as Hf by (apply filter_In; split; [exact Hin | now apply Z.eqb_eq]).
    now rewrite E in Hf.
  - assert (In t (List.filter (fun t => teacher_id t =? clf (subjects s)) teachers))
      as Hf by (rewrite E; now left).
    apply filter_In in Hf as [Ht Hid]. apply Z.eqb_eq in Hid.
    rewrite available_time_overlap_typed. cbn [bind]. rewrite <- Hid.
    now apply (scan_slots_covered teachers).
Qed.

Lemma fallback_covers teachers clf ts s a ts' :
  covers teachers ts ->
  fallback clf ts s teachers = Ok (Some (a, ts')) -> covers teachers ts'.
Proof.
  intros Hc H. apply fallback_hit in H as (t & _ & _ & H).
  eapply scan_hit_covers; eauto.
Qed.

Lemma feedback_step_total sort_values w clf teachers st s :
  sorts_descending sort_values ->
  covers teachers (fst st) ->
  In (clf (subjects s)) (List.map teacher_id teachers) ->
  exists st',
    feedback_step sort_values w clf teachers st s = Ok st' /\
    covers teachers (fst st').
Proof.
  intros Hsort Hc Hpred. unfold feedback_step.
  destruct (candidate_order sort_values w s teachers) as [cands |] eqn:Ec.
  2: { unfold candidate_order in Ec. rewrite candidate_rows_filter in Ec.
       discriminate. }
  cbn [bind].
  destruct (scan_candidates_total teachers (fst st) s cands Hc)
    as [[[a ts'] |] Hscan].
  { intros t q Hin.
    now apply (candidate_order_In _ _ _ _ _ _ _ Hsort Ec) in Hin. }
  - rewrite Hscan. cbn [bind]. eexists. split; [reflexivity |].
    cbn [fst]. eapply scan_candidates_covers; eauto.
  - rewrite Hscan. cbn [bind].
    destruct (fallback_total teachers clf (fst st) s Hc Hpred)
      as [[[a ts'] |] Hfb]; rewrite Hfb; cbn [bind];
      eexists; (split; [reflexivity |]); [| exact Hc].
    cbn [fst]. eapply fallback_covers; eauto.
Qed.

Lemma feedback_loop_total sort_values w clf teachers students st :
  sorts_descending sort_values ->
  covers teachers (fst st) ->
  (forall s, In s students ->
             In (clf (subjects s)) (List.map teacher_id teachers)) ->
  exists st',
    for_each (feedback_step sort_values w clf teachers) st students = Ok st'.
Proof.
  intros Hsort. revert st.
  induction students as [| s students IH]; intros st Hc Hpred;
    cbn [for_each]; [eauto |].
  destruct (feedback_step_total sort_values w clf teachers st s Hsort Hc)
    as (st1 & Hstep & Hc1); [apply Hpred; now left |].
  rewrite Hstep. cbn [bind]. apply IH; [exact Hc1 |].
  intros s' Hs'. apply Hpred. now right.
Qed.

(** ** Training on the baseline schedule *)

Lemma merge_labels students schedule label :
  In label (List.map snd (merge_on_student_id students schedule)) ->
  In label (List.map a_teacher_id schedule).
Proof.
  unfold merge_on_student_id. rewrite in_map_iff.
  intros ([subj l] & Hl & Hin). simpl in Hl. subst l.
  apply in_flat_map in Hin as (s & _ & Hin).
  apply in_map_iff in Hin as (a & [= _ <-] & Ha).
  apply filter_In in Ha as [Ha _]. now apply in_map.
Qed.

Lemma merge_nonempty students schedule a s :
  In a schedule -> In s students -> a_student_id a = student_id s ->
  merge_on_student_id students schedule <> [].
Proof.
  intros Ha Hs Hid Hempty.
  assert (In (subjects s, a_teacher_id a)
             (merge_on_student_id students schedule)) as Hin.
  { unfold merge_on_student_id. apply in_flat_map. exists s. split; [exact Hs |].
    apply in_map_iff. exists a. split; [reflexivity |].
    apply filter_In. split; [exact Ha | now apply Z.eqb_eq]. }
  now rewrite Hempty in Hin.
Qed.

Lemma baseline_labels students teachers schedule a :
  match_students_to_teachers students teachers = Ok schedule ->
  In a schedule ->
  In (a_teacher_id a) (List.map teacher_id teachers) /\
  exists s, In s students /\ a_student_id a = student_id s.
Proof.
  intros Hrun Hin. apply baseline_inv in Hrun as [ts Hinv].
  assert (In (Greedy, a) (greedy_tagged schedule)) as Hin'
    by (unfold greedy_tagged; apply in_map_iff; eauto).
  destruct (greedy_entry_sound _ _ _ _ _ Hinv Hin')
    as (s & t & Hs & Ht & (Hsid & Htid & _) & _).
  split; [rewrite Htid; now apply in_map | eauto].
Qed.

(** Training succeeds on a non-empty baseline schedule, and a classifier
    that answers with training labels then only predicts teacher ids of the
    collection. *)
Lemma train_on_baseline predict students teachers schedule :
  match_students_to_teachers students teachers = Ok schedule ->
  schedule <> [] ->
  exists clf,
    train_teacher_recommender predict schedule students = Ok clf /\
    (predicts_training_labels predict ->
     forall query, In (clf query) (List.map teacher_id teachers)).
Proof.
  intros Hrun Hne. unfold train_teacher_recommender.
  destruct schedule as [| a rest]; [congruence |].
  destruct (baseline_labels _ _ _ a Hrun (or_introl Logic.eq_refl))
    as (_ & s & Hs & Hid).
  pose proof (merge_nonempty students (a :: rest) a s
                (or_introl Logic.eq_refl) Hs Hid) as Hdf.
  destruct (merge_on_student_id students (a :: rest)) as [| x df] eqn:E;
    [congruence |].
  eexists. split; [reflexivity |].
  intros Hlabels query.
  pose proof (Hlabels (x :: df) query Hdf) as Hin.
  assert (In (predict (x :: df) query) (List.map a_teacher_id (a :: rest)))
    as Hlabel by (apply (merge_labels students); now rewrite E).
  apply in_map_iff in Hlabel as (a' & <- & Ha').
  now apply (baseline_labels _ _ _ a' Hrun).
Qed.

(** The whole run: with distinct teacher ids the baseline always returns,
    and the feedback loop returns whenever the baseline schedule is not
    empty and the classifier answers with training labels. *)
Lemma baseline_returns students teachers :
  List.NoDup (List.map teacher_id teachers) ->
  match_students_to_teachers students teachers
  = Ok (first_fit_run students teachers).
Proof.
  intros Hnd. unfold match_students_to_teachers, first_fit_run.
  rewrite baseline_loop_first_fit by (now apply init_covers). reflexivity.
Qed.

Lemma feedback_returns predict sort_values students teachers fb :
  sorts_descending sort_values ->
  predicts_training_labels predict ->
  List.NoDup (List.map teacher_id teachers) ->
  first_fit_run students teachers <> [] ->
  exists schedule,
    match_with_feedback_loop predict sort_values students teachers fb
    = Ok schedule.
Proof.
  intros Hsort Hlabels Hnd Hne.
  pose proof (baseline_returns students teachers Hnd) as Hbase.
  destruct (train_on_baseline predict _ _ _ Hbase Hne) as (clf & Htrain & Hclf).
  destruct (feedback_loop_total sort_values (teacher_weights fb) clf teachers
              students (init_teacher_slots teachers, []) Hsort)
    as [st Hloop].
  { now apply init_covers. }
  { intros s _. now apply Hclf. }
  unfold match_with_feedback_loop, feedback_trace.
  rewrite Hbase. cbn [bind]. rewrite Htrain. cbn [bind].
  rewrite Hloop. cbn [bind]. eauto.
Qed.

(** ** The baseline matcher is a first-fit search *)

Lemma find_first {A : Type} (f : A -> bool) l1 x l2 :
  (forall y, In y l1 -> f y = false) -> f x = true ->
  List.find f (l1 ++ x :: l2) = Some x.
Proof.
  induction l1 as [| y l1 IH]; simpl; intros Hl1 Hx.
  - now rewrite Hx.
  - rewrite (Hl1 y) by now left. apply IH; auto.
Qed.

Lemma find_nowhere {A : Type} (f : A -> bool) l :
  (forall y, In y l -> f y = false) -> List.find f l = None.
Proof.
  induction l as [| y l IH]; simpl; intros Hl; [reflexivity |].
  rewrite (Hl y) by now left. apply IH; auto.
Qed.

(** C7 (amended). With pairwise distinct teacher ids,
    [match_students_to_teachers] returns the schedule of the first-fit rule,
    folded over the students in input order. In that rule a student goes to
    the first teacher in input order that has subject overlap with the
    student and a common slot with occupancy below capacity (teachers before
    it that cannot take the student are passed over), at the first such slot
    in sorted order of the preferred/available intersection, and exactly one
    entry is committed; a student no teacher can take leaves the state as it
    is. *)
Theorem baseline_is_first_fit students teachers :
  List.NoDup (List.map teacher_id teachers) ->
  match_students_to_teachers students teachers
  = Ok (snd (fold_left (first_fit_step teachers) students
               (init_teacher_slots teachers, []))) /\
  (forall st s l1 t l2 sl1 slot sl2,
      teachers = l1 ++ t :: l2 ->
      (forall t', In t' l1 -> can_take (fst st) s t' = false) ->
      overlaps (subjects s) (teacher_subjects t) = true ->
      time_overlap (preferred_time_slots s) (available_time_slots t)
      = sl1 ++ slot :: sl2 ->
      (forall x, In x sl1 -> has_room (fst st) t x = false) ->
      has_room (fst st) t slot = true ->
      first_fit_step teachers st s = commit st s t slot) /\
  (forall st s,
      (forall t, In t teachers -> can_take (fst st) s t = false) ->
      first_fit_step teachers st s = st).
Proof.
  intros Hnd. split; [| split].
  - now rewrite baseline_returns.
  - intros st s l1 t l2 sl1 slot sl2 -> Hl1 Hov Hslots Hsl1 Hslot.
    assert (first_free_slot (fst st) s t = Some slot) as Hfree.
    { unfold first_free_slot. rewrite Hslots. now apply find_first. }
    unfold first_fit_step. rewrite (find_first _ l1 t l2 Hl1).
    + now rewrite Hfree.
    + unfold can_take. now rewrite Hov, Hfree.
  - intros st s Hnone. unfold first_fit_step.
    now rewrite (find_nowhere _ teachers Hnone).
Qed.

(** ** Candidate order in the feedback loop *)

Lemma sorted_after {A : Type} (R : A -> A -> Prop) l1 x l2 y :
  StronglySorted R (l1 ++ x :: l2) -> In y l2 -> R x y.
Proof.
  induction l1 as [| z l1 IH]; simpl; intros Hs Hy.
  - apply StronglySorted_inv in Hs as [_ Hall].
    rewrite List.Forall_forall in Hall. now apply Hall.
  - apply StronglySorted_inv in Hs as [Hs _]. now apply IH.
Qed.

(** The committing candidate, and the candidates passed over before it. *)
Lemma scan_candidates_split ts s cands a ts' :
  scan_candidates ts s cands = Ok (Some (a, ts')) ->
  exists l1 t q l2,
    cands = l1 ++ (t, q) :: l2 /\
    (forall t' q', In (t', q') l1 -> first_free_slot ts s t' = None) /\
    a_teacher_id a = teacher_id t.
Proof.
  induction cands as [| [t q] l IH]; cbn [scan_candidates]; [discriminate |].
  rewrite available_time_overlap_typed. cbn [bind].
  destruct (scan_slots _ _ _ _ _) as [[[a0 ts0] |] |] eqn:Escan; cbn [bind].
  - intros [= <- <-]. exists [], t, q, l. split; [reflexivity |].
    split; [intros ? ? [] |].
    apply scan_slots_hit in Escan as (slot & d & c & _ & _ & _ & _ & -> & _).
    reflexivity.
  - intros H. destruct (IH H) as (l1 & t1 & q1 & l2 & -> & Hmiss & Hid).
    exists ((t, q) :: l1), t1, q1, l2. split; [reflexivity |].
    split; [| exact Hid].
    intros t' q' [[= <- <-] | Hin]; [| eauto].
    now apply first_free_slot_miss.
  - discriminate.
Qed.

Lemma greedy_choice_heaviest sort_values w s teachers cands ts a ts' t :
  sorts_descending sort_values ->
  candidate_order sort_values w s teachers = Ok cands ->
  scan_candidates ts s cands = Ok (Some (a, ts')) ->
  In t teachers -> can_take ts s t = true ->
  (w (teacher_id t) <= w (a_teacher_id a))%Q.
Proof.
  intros Hsort Hc Hscan Hin Htake.
  apply andb_prop in Htake as [Hov Hfree].
  assert (In (t, w (teacher_id t)) cands) as Hcand
    by (apply (candidate_order_In _ _ _ _ _ _ _ Hsort Hc); auto).
  assert (StronglySorted weight_ge cands) as Hs.
  { unfold candidate_order in Hc. rewrite candidate_rows_filter in Hc.
    cbn [bind] in Hc. injection Hc as <-. apply Hsort. }
  apply scan_candidates_split in Hscan
    as (l1 & t0 & q0 & l2 & -> & Hmiss & Hid).
  assert (q0 = w (teacher_id t0)) as ->.
  { apply (candidate_order_In _ _ _ _ _ t0 q0 Hsort Hc).
    apply in_or_app. right. now left. }
  rewrite Hid.
  apply in_app_or in Hcand as [Hl1 | [[= <- ] | Hl2]].
  - rewrite (Hmiss _ _ Hl1) in Hfree. discriminate.
  - apply Qle_refl.
  - apply (sorted_after weight_ge _ _ _ _ Hs Hl2).
Qed.

(** ** Failures of the feedback loop *)

(** C2 (amended). If the baseline matcher produces zero assignments,
    [match_with_feedback_loop] raises [KeyError] in the training step, before
    the student loop, and returns no schedule. *)
Theorem empty_training_set_raises predict sort_values students teachers fb :
  match_students_to_teachers students teachers = Ok [] ->
  match_with_feedback_loop predict sort_values students teachers fb
  = Raise KeyError.
Proof.
  intros H. unfold match_with_feedback_loop, feedback_trace.
  rewrite H. reflexivity.
Qed.

(** ** The model at concrete frames *)

Ltac distinct_ids :=
  repeat (constructor; [simpl; intuition congruence |]); constructor.

Lemma two_teachers_distinct : List.NoDup (List.map teacher_id two_teachers).
Proof. distinct_ids. Defined.

Lemma three_students_distinct : List.NoDup (List.map student_id three_students).
Proof. distinct_ids. Defined.

Lemma two_teachers_capacities :
  forall t, In t two_teachers -> 0 <= max_students_per_slot t.
Proof. intros t [<- | [<- | []]]; simpl; lia. Defined.

Example baseline_two_seats :
  match_students_to_teachers three_students two_teachers = Ok two_seats_schedule.
Proof. vm_compute. reflexivity. Qed.

Example feedback_two_seats :
  match_with_feedback_loop predict_first_label stable_sort_desc
    three_students two_teachers None = Ok two_seats_schedule.
Proof. vm_compute. reflexivity. Qed.

Example feedback_mixed :
  feedback_trace predict_first_label stable_sort_desc
    mixed_students one_teacher None = Ok mixed_trace.
Proof. vm_compute. reflexivity. Qed.

(** Scenario D of the specification: the better rated second teacher is
    served before the first one. *)
Example feedback_prefers_rated :
  match_with_feedback_loop predict_first_label stable_sort_desc
    three_students two_teachers (Some ratings)
  = Ok [entry 1 2 "Mon9" "1:1"; entry 2 1 "Mon9" "1:1"].
Proof. vm_compute. reflexivity. Qed.

Lemma capacity_never_exceeded_witness :
  sorts_descending stable_sort_desc /\
  List.NoDup (List.map teacher_id two_teachers) /\
  occupancy (teacher_id t_math1) "Mon9" two_seats_schedule
    <= max_students_per_slot t_math1.
Proof.
  split; [exact stable_sort_desc_sorts |].
  split; [exact two_teachers_distinct |].
  refine (proj1 (proj2 (capacity_never_exceeded predict_first_label
            stable_sort_desc three_students two_teachers None
            stable_sort_desc_sorts two_teachers_distinct
            two_teachers_capacities))
          two_seats_schedule _ t_math1 "Mon9" _).
  - vm_compute. reflexivity.
  - simpl. auto.
Defined.

Lemma student_assigned_at_most_once_witness :
  List.NoDup (List.map student_id three_students) /\
  List.NoDup (List.map a_student_id two_seats_schedule).
Proof.
  split; [exact three_students_distinct |].
  refine (proj2 (student_assigned_at_most_once predict_first_label
            stable_sort_desc three_students two_teachers None
            three_students_distinct)
          two_seats_schedule _).
  vm_compute. reflexivity.
Defined.

Lemma lesson_type_rule_witness :
  occupancy 7 "Mon9" [entry 1 7 "Mon9" "1:1"] <> 0 /\
  lesson_type (entry 4 7 "Mon9" "group") = "group".
Proof.
  split; [vm_compute; discriminate |].
  refine (proj2 (proj2 (lesson_type_rule predict_first_label stable_sort_desc
            mixed_students one_teacher None)
          (List.map snd mixed_trace) [entry 1 7 "Mon9" "1:1"]
          (entry 4 7 "Mon9" "group") [] _ _) _).
  - vm_compute. reflexivity.
  - reflexivity.
  - vm_compute. discriminate.
Defined.

Lemma greedy_path_sound_witness :
  exists student teacher,
    In student three_students /\ In teacher two_teachers /\
    slot_sound student teacher (entry 2 2 "Mon9" "1:1") /\
    subjects_intersect student teacher.
Proof.
  refine (proj1 (greedy_path_sound predict_first_label stable_sort_desc
            three_students two_teachers None stable_sort_desc_sorts)
          two_seats_schedule (entry 2 2 "Mon9" "1:1") _ _).
  - vm_compute. reflexivity.
  - simpl. auto.
Defined.

Lemma fallback_path_sound_witness :
  overlaps (subjects s_art) (teacher_subjects t_math_wide) = false /\
  exists student teacher,
    In student mixed_students /\ In teacher one_teacher /\
    slot_sound student teacher (entry 4 7 "Mon9" "group") /\
    occupancy (teacher_id teacher) "Mon9" [entry 1 7 "Mon9" "1:1"]
      < max_students_per_slot teacher.
Proof.
  split; [vm_compute; reflexivity |].
  refine (proj1 (fallback_path_sound predict_first_label stable_sort_desc
            mixed_students one_teacher None mixed_trace
            stable_sort_desc_sorts _)
          [(Greedy, entry 1 7 "Mon9" "1:1")] (entry 4 7 "Mon9" "group") [] _).
  - vm_compute. reflexivity.
  - reflexivity.
Defined.

Lemma baseline_is_first_fit_witness :
  List.NoDup (List.map teacher_id two_teachers) /\
  match_students_to_teachers three_students two_teachers
  = Ok (snd (fold_left (first_fit_step two_teachers) three_students
               (init_teacher_slots two_teachers, []))).
Proof.
  split; [exact two_teachers_distinct |].
  exact (proj1 (baseline_is_first_fit three_students two_teachers
                  two_teachers_distinct)).
Defined.

Lemma empty_training_set_raises_witness :
  match_students_to_teachers [s_art] two_teachers = Ok [] /\
  match_with_feedback_loop predict_first_label stable_sort_desc
    [s_art] two_teachers None = Raise KeyError.
Proof.
  assert (match_students_to_teachers [s_art] two_teachers = Ok []) as H
    by (vm_compute; reflexivity).
  split; [exact H |].
  exact (empty_training_set_raises predict_first_label stable_sort_desc
           [s_art] two_teachers None H).
Defined.

Lemma available_time_overlap_spec_witness :
  available_time_overlap (py_strs ["Tue10"; "Mon9"]) (py_strs ["Fri1"]) = Ok [].
Proof.
  apply (proj1 (proj2 available_time_overlap_spec)).
  intros x [<- | [<- | []]] [H | []]; discriminate.
Defined.

(** Outside the data model: two rows with the same teacher id share one
    counter, which is checked against the capacity of the row being scanned;
    the pair then holds more students than the first row allows. *)
Example duplicate_ids_share_counter :
  let teachers := [mkTeacher 1 ["Math"] ["Mon9"] 1;
                   mkTeacher 1 ["Math"] ["Mon9"] 2] in
  match_students_to_teachers three_students teachers
  = Ok [entry 1 1 "Mon9" "1:1"; entry 2 1 "Mon9" "group"].
Proof. vm_compute. reflexivity. Qed.

(** Outside the data model: with a repeated teacher id the table keeps the
    slots of the last row only, and reading a slot of an earlier row raises. *)
Example duplicate_ids_missing_slot :
  let teachers := [mkTeacher 1 ["Math"] ["Mon9"] 1;
                   mkTeacher 1 ["Math"] ["Tue10"] 1] in
  match_students_to_teachers three_students teachers = Raise KeyError.
Proof. vm_compute. reflexivity. Qed.

(** ** Where the claims as worded fail *)

(** C2, as worded: with an empty baseline schedule the run should complete
    with every student unmatched. Here no teacher shares a subject with the
    only student, the baseline schedule is empty, and the run raises. *)
Lemma empty_training_set_counterexample :
  match_students_to_teachers [s_art] two_teachers = Ok [] /\
  match_with_feedback_loop predict_first_label stable_sort_desc
    [s_art] two_teachers None = Raise KeyError.
Proof. split; vm_compute; reflexivity. Qed.

(** C7, as worded: a student is assigned to the first teacher in input order
    that has subject overlap. The second student overlaps with the first
    teacher, whose only slot is taken, and is assigned to the second one. *)
Lemma first_overlap_counterexample :
  match_students_to_teachers three_students two_teachers
  = Ok [entry 1 1 "Mon9" "1:1"; entry 2 2 "Mon9" "1:1"] /\
  first_overlapping_teacher s_math2 two_teachers = Some t_math1 /\
  a_teacher_id (entry 2 2 "Mon9" "1:1") <> teacher_id t_math1.
Proof.
  split; [vm_compute; reflexivity |].
  split; [vm_compute; reflexivity | vm_compute; discriminate].
Qed.

(** * Further properties of the code *)

(** ** [src/utils.py] *)

Lemma all_str_comm (a b : list PyVal) :
  forallb is_str (a ++ b) = forallb is_str (b ++ a).
Proof. rewrite !forallb_app. apply andb_comm. Qed.

Lemma set_inter_comm (a b : list string) : set_inter a b = set_inter b a.
Proof. unfold set_inter. apply (comm_L (∩)). Qed.

Lemma set_inter_ext (a a' b b' : list string) :
  (forall x, In x a <-> In x a') -> (forall x, In x b <-> In x b') ->
  set_inter a b = set_inter a' b'.
Proof.
  intros Ha Hb. apply set_eq. intros x.
  now rewrite !set_inter_In, Ha, Hb.
Qed.

(** X1. On two lists of strings [subject_overlap] returns [True] exactly when
    the lists share an element (so [False] when either is empty); an argument
    that is not a list, or a list with a non-string element, raises
    [TypeError]. *)
Theorem subject_overlap_spec :
  (forall a b : list string,
      exists r,
        subject_overlap (py_strs a) (py_strs b) = Ok r /\
        (r = true <-> exists x, In x a /\ In x b)) /\
  (forall u v : PyVal,
      is_list u = false \/ is_list v = false ->
      subject_overlap u v = Raise TypeError) /\
  (forall (a b : list PyVal) (x : PyVal),
      In x (a ++ b) -> is_str x = false ->
      subject_overlap (PyList a) (PyList b) = Raise TypeError).
Proof.
  split; [| split].
  - intros a b. exists (overlaps a b).
    split; [apply subject_overlap_typed | apply overlaps_true].
  - intros u v [Hu | Hv]; destruct u; try discriminate; try reflexivity;
      destruct v; try discriminate; reflexivity.
  - intros a b x Hx Hstr. simpl.
    destruct (forallb is_str (a ++ b)) eqn:E; [| reflexivity].
    rewrite forallb_forall in E. rewrite (E x Hx) in Hstr. discriminate.
Qed.

(** X2. Both overlap utilities are symmetric in their two arguments, for
    every pair of Python values: swapping the arguments gives the same
    result or the same [TypeError]. *)
Theorem overlap_utilities_symmetric (u v : PyVal) :
  subject_overlap u v = subject_overlap v u /\
  available_time_overlap u v = available_time_overlap v u.
Proof.
  destruct u as [| | | a], v as [| | | b]; try (split; reflexivity).
  unfold subject_overlap, available_time_overlap, overlaps, time_overlap.
  rewrite (all_str_comm a b), (set_inter_comm (strs_of a) (strs_of b)).
  split; reflexivity.
Qed.

(** X3. The result of [available_time_overlap] depends only on which strings
    occur in each list: order and repetitions in the arguments do not
    matter, and the result itself has no repetition. *)
Theorem time_overlap_of_sets (a a' b b' : list string) :
  (forall x, In x a <-> In x a') ->
  (forall x, In x b <-> In x b') ->
  available_time_overlap (py_strs a) (py_strs b)
  = available_time_overlap (py_strs a') (py_strs b') /\
  List.NoDup (time_overlap a b).
Proof.
  intros Ha Hb. split.
  - rewrite !available_time_overlap_typed. unfold time_overlap.
    now rewrite (set_inter_ext a a' b b').
  - unfold time_overlap, sorted. apply NoDup_ListNoDup.
    rewrite (merge_sort_Permutation str_le). apply NoDup_elements.
Qed.

(** X4. The two utilities agree: on lists of strings
    [available_time_overlap] returns the empty list exactly when
    [subject_overlap] returns [False]. *)
Theorem overlap_utilities_agree (a b : list string) :
  subject_overlap (py_strs a) (py_strs b) = Ok false <->
  available_time_overlap (py_strs a) (py_strs b) = Ok [].
Proof.
  rewrite subject_overlap_typed, available_time_overlap_typed. split.
  - intros [= Hov]. f_equal. apply time_overlap_empty. intros x Hxa Hxb.
    assert (overlaps a b = true) as Ht by (apply overlaps_true; eauto).
    congruence.
  - intros [= Hnil]. f_equal.
    destruct (overlaps a b) eqn:E; [| reflexivity].
    apply overlaps_true in E as (x & Hxa & Hxb).
    assert (In x (time_overlap a b)) as Hin by (apply time_overlap_In; auto).
    rewrite Hnil in Hin. destruct Hin.
Qed.

(** ** [src/matcher.py]: the loop state only grows *)

Lemma table_grows_refl ts : table_grows ts ts.
Proof. intros tid slot. destruct (usage_of ts tid slot); [lia | exact I]. Qed.

Lemma table_grows_trans ts1 ts2 ts3 :
  table_grows ts1 ts2 -> table_grows ts2 ts3 -> table_grows ts1 ts3.
Proof.
  intros H12 H23 tid slot. specialize (H12 tid slot). specialize (H23 tid slot).
  destruct (usage_of ts1 tid slot), (usage_of ts2 tid slot),
    (usage_of ts3 tid slot); try tauto; lia.
Qed.

Lemma table_grows_bump (ts : gmap Z (gmap string Z)) tid slot d c :
  ts !! tid = Some d -> d !! slot = Some c ->
  table_grows ts (<[tid := <[slot := c + 1]> d]> ts).
Proof.
  intros Hd Hc tid' slot'. rewrite (usage_of_bump ts) by assumption.
  destruct (decide (tid' = tid /\ slot' = slot)) as [[-> ->] | Hne].
  - unfold usage_of. rewrite Hd, Hc. lia.
  - destruct (usage_of ts tid' slot'); [lia | exact I].
Qed.

Lemma extends_refl {E : Type} (st : gmap Z (gmap string Z) * list E) :
  extends st st.
Proof.
  split; [exists []; now rewrite app_nil_r | apply table_grows_refl].
Qed.

Lemma extends_trans {E : Type} (st1 st2 st3 : gmap Z (gmap string Z) * list E) :
  extends st1 st2 -> extends st2 st3 -> extends st1 st3.
Proof.
  intros [[m1 H1] G1] [[m2 H2] G2]. split.
  - exists (m1 ++ m2). now rewrite H2, H1, app_assoc.
  - eapply table_grows_trans; eauto.
Qed.

Lemma scan_hit_grows ts sid t slots a ts' :
  scan_slots ts sid (teacher_id t) (max_students_per_slot t) slots
  = Ok (Some (a, ts')) ->
  table_grows ts ts' /\ a_student_id a = sid /\ a_teacher_id a = teacher_id t.
Proof.
  intros H. apply scan_slots_hit in H
    as (slot & d & c & _ & Hd & Hc & _ & -> & ->).
  split; [now apply table_grows_bump | auto].
Qed.

(** A slot scan that ends without a commit found every slot filled. *)
Lemma scan_slots_full ts sid t slots :
  scan_slots ts sid (teacher_id t) (max_students_per_slot t) slots = Ok None ->
  forall slot, In slot slots ->
    exists c, usage_of ts (teacher_id t) slot = Some c /\
              max_students_per_slot t <= c.
Proof.
  induction slots as [| x rest IH]; simpl; [intros _ ? [] |].
  unfold get_count, increment, usage_of in *.
  destruct (ts !! teacher_id t) as [d |] eqn:Ed; simpl; [| discriminate].
  destruct (d !! x) as [c |] eqn:Ec; simpl; [| discriminate].
  destruct (c <? max_students_per_slot t) eqn:Elt; simpl; [discriminate |].
  intros H slot [<- | Hin].
  - exists c. split; [exact Ec | now apply Z.ltb_ge].
  - now apply IH.
Qed.

Lemma scan_teachers_miss ts s l :
  scan_teachers ts s l = Ok None ->
  forall t, In t l -> overlaps (subjects s) (teacher_subjects t) = true ->
    scan_slots ts (student_id s) (teacher_id t) (max_students_per_slot t)
      (time_overlap (preferred_time_slots s) (available_time_slots t))
    = Ok None.
Proof.
  induction l as [| x l IH]; cbn [scan_teachers]; [intros _ ? [] |].
  rewrite subject_overlap_typed. cbn [bind].
  destruct (overlaps (subjects s) (teacher_subjects x)) eqn:Eov.
  - rewrite available_time_overlap_typed. cbn [bind].
    destruct (scan_slots _ _ _ _ _) as [[r |] |] eqn:Escan; cbn [bind];
      [discriminate | | discriminate].
    intros H t [<- | Hin] Hov; [exact Escan | now apply IH].
  - intros H t [<- | Hin] Hov; [congruence | now apply IH].
Qed.

Lemma scan_candidates_miss ts s cands :
  scan_candidates ts s cands = Ok None ->
  forall t q, In (t, q) cands ->
    scan_slots ts (student_id s) (teacher_id t) (max_students_per_slot t)
      (time_overlap (preferred_time_slots s) (available_time_slots t))
    = Ok None.
Proof.
  induction cands as [| [x w] l IH]; cbn [scan_candidates]; [intros _ ? ? [] |].
  rewrite available_time_overlap_typed. cbn [bind].
  destruct (scan_slots _ _ _ _ _) as [[r |] |] eqn:Escan; cbn [bind];
    [discriminate | | discriminate].
  intros H t q [[= <- <-] | Hin]; [exact Escan | now apply (IH H t q)].
Qed.

(** What one iteration of either loop does to the state: nothing, or one
    appended entry of the student and a grown table. *)
Lemma baseline_step_effect teachers st s st' :
  baseline_step teachers st s = Ok st' ->
  (st' = st /\ scan_teachers (fst st) s teachers = Ok None) \/
  (exists a, snd st' = snd st ++ [a] /\ a_student_id a = student_id s /\
             table_grows (fst st) (fst st')).
Proof.
  unfold baseline_step.
  destruct (scan_teachers (fst st) s teachers) as [[[a ts'] |] |] eqn:E;
    cbn [bind]; [| | discriminate]; intros [= <-].
  - right. apply scan_teachers_hit in E as (t & _ & _ & Hscan).
    apply scan_hit_grows in Hscan as (Hg & Hsid & _). exists a. auto.
  - left. auto.
Qed.

Lemma feedback_step_effect sort_values w clf teachers st s st' :
  feedback_step sort_values w clf teachers st s = Ok st' ->
  (st' = st /\
   exists cands, candidate_order sort_values w s teachers = Ok cands /\
                 scan_candidates (fst st) s cands = Ok None) \/
  (exists p a, snd st' = snd st ++ [(p, a)] /\ a_student_id a = student_id s /\
               table_grows (fst st) (fst st')).
Proof.
  unfold feedback_step.
  destruct (candidate_order sort_values w s teachers) as [cands |] eqn:Ec;
    cbn [bind]; [| discriminate].
  destruct (scan_candidates (fst st) s cands) as [[[a ts'] |] |] eqn:Es;
    cbn [bind]; [| | discriminate].
  - intros [= <-]. right.
    apply scan_candidates_hit in Es as (t & q & _ & Hscan).
    apply scan_hit_grows in Hscan as (Hg & Hsid & _). exists Greedy, a. auto.
  - destruct (fallback clf (fst st) s teachers) as [[[a ts'] |] |] eqn:Ef;
      cbn [bind]; [| | discriminate]; intros [= <-].
    + right. apply fallback_hit in Ef as (t & _ & _ & Hscan).
      apply scan_hit_grows in Hscan as (Hg & Hsid & _). exists Fallback, a. auto.
    + left. eauto.
Qed.

Lemma for_each_extends {E X : Type}
  (body : gmap Z (gmap string Z) * list E -> X ->
          Result (gmap Z (gmap string Z) * list E)) :
  (forall st x st', body st x = Ok st' -> extends st st') ->
  forall xs st st', for_each body st xs = Ok st' -> extends st st'.
Proof.
  intros Hstep. induction xs as [| x xs IH]; intros st st'; cbn [for_each].
  - intros [= <-]. apply extends_refl.
  - destruct (body st x) as [st1 |] eqn:Hx; cbn [bind]; [| discriminate].
    intros H. eapply extends_trans; eauto.
Qed.

Lemma for_each_split {S X : Type} (body : S -> X -> Result S) pre post st st2 :
  for_each body st (pre ++ post) = Ok st2 ->
  exists st1, for_each body st pre = Ok st1 /\ for_each body st1 post = Ok st2.
Proof.
  rewrite for_each_app. destruct (for_each body st pre) as [st1 |];
    cbn [bind]; [eauto | discriminate].
Qed.

Lemma baseline_step_extends teachers st s st' :
  baseline_step teachers st s = Ok st' -> extends st st'.
Proof.
  intros H. apply baseline_step_effect in H as [[-> _] | (a & Ha & _ & Hg)].
  - apply extends_refl.
  - split; eauto.
Qed.

Lemma feedback_step_extends sort_values w clf teachers st s st' :
  feedback_step sort_values w clf teachers st s = Ok st' -> extends st st'.
Proof.
  intros H. apply feedback_step_effect in H as [[-> _] | (p & a & Ha & _ & Hg)].
  - apply extends_refl.
  - split; eauto.
Qed.

(** X5. Both student loops only ever append to the schedule and increment
    counters: from any state, the state reached after a prefix of the
    students is extended by the state reached after all of them; its
    schedule is a prefix of the final one, no key of the usage table is
    added or removed, and no counter decreases. *)
Theorem loops_only_grow :
  (forall teachers pre post st st2,
      for_each (baseline_step teachers) st (pre ++ post) = Ok st2 ->
      exists st1,
        for_each (baseline_step teachers) st pre = Ok st1 /\
        extends st st1 /\ extends st1 st2) /\
  (forall sort_values w clf teachers pre post st st2,
      for_each (feedback_step sort_values w clf teachers) st (pre ++ post)
      = Ok st2 ->
      exists st1,
        for_each (feedback_step sort_values w clf teachers) st pre = Ok st1 /\
        extends st st1 /\ extends st1 st2).
Proof.
  split.
  - intros teachers pre post st st2 H.
    apply for_each_split in H as (st1 & Hpre & Hpost). exists st1.
    split; [exact Hpre |].
    split; eapply for_each_extends; eauto using baseline_step_extends.
  - intros sort_values w clf teachers pre post st st2 H.
    apply for_each_split in H as (st1 & Hpre & Hpost). exists st1.
    split; [exact Hpre |].
    split; eapply for_each_extends; eauto using feedback_step_extends.
Qed.

(** ** [src/matcher.py]: who stays unmatched *)

Lemma full_persists ts ts2 schedule s t :
  scan_slots ts (student_id s) (teacher_id t) (max_students_per_slot t)
    (time_overlap (preferred_time_slots s) (available_time_slots t))
  = Ok None ->
  table_grows ts ts2 ->
  (forall tid slot,
      occupancy tid slot schedule = default 0 (usage_of ts2 tid slot)) ->
  no_room_left schedule s t.
Proof.
  intros Hscan Hgrow Hocc slot Hp Ha.
  destruct (scan_slots_full _ _ _ _ Hscan slot) as (c & Hc & Hle).
  { apply time_overlap_In. auto. }
  specialize (Hgrow (teacher_id t) slot). rewrite Hc in Hgrow.
  rewrite Hocc. destruct (usage_of ts2 (teacher_id t) slot); simpl; [lia | tauto].
Qed.

(** X6. The baseline schedule cannot be extended by a student it left out:
    for a student without an entry, every teacher that shares a subject has
    all the slots they have in common filled to capacity (or beyond) in the
    returned schedule. *)
Theorem baseline_unmatched_have_no_room students teachers schedule s t :
  match_students_to_teachers students teachers = Ok schedule ->
  In s students ->
  ~ In (student_id s) (List.map a_student_id schedule) ->
  In t teachers ->
  overlaps (subjects s) (teacher_subjects t) = true ->
  no_room_left schedule s t.
Proof.
  intros Hrun Hs Hout Ht Hov. apply baseline_run in Hrun as [ts Hrun].
  pose proof (baseline_loop_inv _ _ _ Hrun) as Hinv. cbn [fst snd] in Hinv.
  apply in_split in Hs as (pre & post & ->).
  apply for_each_split in Hrun as (st1 & _ & Hrest). cbn [for_each] in Hrest.
  destruct (baseline_step teachers st1 s) as [st1' |] eqn:Hstep;
    cbn [bind] in Hrest; [| discriminate].
  pose proof (for_each_extends _ (baseline_step_extends teachers) _ _ _ Hrest)
    as [[more Hmore] Hgrow]. cbn [fst snd] in Hmore, Hgrow.
  apply baseline_step_effect in Hstep as [[-> Hmiss] | (a & Ha & Hsid & _)].
  - eapply full_persists; [| exact Hgrow |].
    + now apply (scan_teachers_miss _ _ _ Hmiss).
    + intros tid slot. rewrite <- (inv_usage _ _ _ _ Hinv).
      now rewrite greedy_tagged_snd.
  - exfalso. apply Hout. rewrite Hmore, Ha, <- Hsid.
    apply in_map. apply in_or_app. left. apply in_or_app. right. now left.
Qed.

(** X7. The same holds for the feedback loop, whatever the fallback did: a
    student without an entry in the returned schedule has no free common slot
    left with any teacher that shares a subject. *)
Theorem feedback_unmatched_have_no_room
  predict sort_values students teachers fb schedule s t :
  sorts_descending sort_values ->
  match_with_feedback_loop predict sort_values students teachers fb
  = Ok schedule ->
  In s students ->
  ~ In (student_id s) (List.map a_student_id schedule) ->
  In t teachers ->
  overlaps (subjects s) (teacher_subjects t) = true ->
  no_room_left schedule s t.
Proof.
  intros Hsort Hrun Hs Hout Ht Hov.
  apply feedback_schedule in Hrun as (trace & Hrun & ->).
  apply feedback_run in Hrun as (sch0 & clf & ts & _ & _ & Hrun).
  pose proof (feedback_loop_inv_any _ _ _ _ _ _ Hrun) as Hinv.
  cbn [fst snd] in Hinv.
  apply in_split in Hs as (pre & post & ->).
  apply for_each_split in Hrun as (st1 & _ & Hrest). cbn [for_each] in Hrest.
  destruct (feedback_step sort_values (teacher_weights fb) clf teachers st1 s)
    as [st1' |] eqn:Hstep; cbn [bind] in Hrest; [| discriminate].
  pose proof (for_each_extends _
                (feedback_step_extends sort_values (teacher_weights fb) clf
                   teachers) _ _ _ Hrest)
    as [[more Hmore] Hgrow]. cbn [fst snd] in Hmore, Hgrow.
  apply feedback_step_effect in Hstep
    as [[-> (cands & Hc & Hmiss)] | (p & a & Ha & Hsid & _)].
  - eapply full_persists; [| exact Hgrow |].
    + apply (scan_candidates_miss _ _ _ Hmiss t
               (teacher_weights fb (teacher_id t))).
      apply (candidate_order_In _ _ _ _ _ _ _ Hsort Hc). auto.
    + intros tid slot. now rewrite <- (inv_usage _ _ _ _ Hinv).
  - exfalso. apply Hout. rewrite Hmore, Ha, <- Hsid, !map_app. simpl.
    apply in_or_app. left. apply in_or_app. right. now left.
Qed.

(** ** [src/matcher.py]: what the fallback branch can commit *)

Lemma scan_hit_sound ts s t a ts' :
  scan_slots ts (student_id s) (teacher_id t) (max_students_per_slot t)
    (time_overlap (preferred_time_slots s) (available_time_slots t))
  = Ok (Some (a, ts')) ->
  slot_sound s t a.
Proof.
  intros H. apply scan_slots_hit in H
    as (slot & d & c & Hf & _ & _ & _ & -> & _).
  apply find_some in Hf as [Hslot _]. apply time_overlap_In in Hslot.
  unfold slot_sound. simpl. tauto.
Qed.

Lemma fallback_entry_no_overlap sort_values w clf teachers st s st' a :
  sorts_descending sort_values ->
  feedback_step sort_values w clf teachers st s = Ok st' ->
  In (Fallback, a) (snd st') ->
  In (Fallback, a) (snd st) \/
  (exists t, In t teachers /\ slot_sound s t a /\
             teacher_id t = clf (subjects s) /\
             overlaps (subjects s) (teacher_subjects t) = false).
Proof.
  intros Hsort. unfold feedback_step.
  destruct (candidate_order sort_values w s teachers) as [cands |] eqn:Ec;
    cbn [bind]; [| discriminate].
  destruct (scan_candidates (fst st) s cands) as [[[e ts'] |] |] eqn:Es;
    cbn [bind]; [| | discriminate].
  - intros [= <-]. cbn [snd]. intros Hin.
    apply in_app_or in Hin as [Hin | [[=] | []]]. now left.
  - destruct (fallback clf (fst st) s teachers) as [[[e ts'] |] |] eqn:Ef;
      cbn [bind]; [| | discriminate]; intros [= <-]; [| now left].
    cbn [snd]. intros Hin.
    apply in_app_or in Hin as [Hin | [[= <-] | []]]; [now left |].
    right. apply fallback_hit in Ef as (t & Ht & Hid & Hscan).
    exists t. split; [exact Ht |].
    split; [now apply (scan_hit_sound (fst st) s t e ts') |].
    split; [exact Hid |].
    destruct (overlaps (subjects s) (teacher_subjects t)) eqn:Eov;
      [| reflexivity].
    assert (In (t, w (teacher_id t)) cands) as Hcand
      by (apply (candidate_order_In _ _ _ _ _ _ _ Hsort Ec); auto).
    rewrite (scan_candidates_miss _ _ _ Es _ _ Hcand) in Hscan. discriminate.
Qed.

Lemma fallback_entries sort_values w clf teachers students st st' a :
  sorts_descending sort_values ->
  for_each (feedback_step sort_values w clf teachers) st students = Ok st' ->
  In (Fallback, a) (snd st') ->
  In (Fallback, a) (snd st) \/
  (exists s t, In s students /\ In t teachers /\ slot_sound s t a /\
               teacher_id t = clf (subjects s) /\
               overlaps (subjects s) (teacher_subjects t) = false).
Proof.
  intros Hsort. revert st.
  induction students as [| s students IH]; intros st; cbn [for_each].
  - intros [= <-]. now left.
  - destruct (feedback_step sort_values w clf teachers st s) as [st1 |] eqn:Hstep;
      cbn [bind]; [| discriminate].
    intros Hrest Hin. destruct (IH _ Hrest Hin) as [Hin1 | (s' & t & Hs' & H)].
    + destruct (fallback_entry_no_overlap _ _ _ _ _ _ _ _ Hsort Hstep Hin1)
        as [Hin0 | (t & H)]; [now left |].
      right. exists s, t. split; [now left | exact H].
    + right. exists s', t. split; [now right | exact H].
Qed.

(** X8. An entry appended by the fallback branch always pairs the student
    with a teacher who shares no subject with them: the predicted teacher
    has a free common slot, so had the subjects overlapped, the greedy branch
    would have committed on that teacher. *)
Theorem fallback_pairs_share_no_subject
  predict sort_values students teachers fb trace a :
  sorts_descending sort_values ->
  feedback_trace predict sort_values students teachers fb = Ok trace ->
  In (Fallback, a) trace ->
  exists s t,
    In s students /\ In t teachers /\ slot_sound s t a /\
    overlaps (subjects s) (teacher_subjects t) = false.
Proof.
  intros Hsort Hrun Hin.
  apply feedback_run in Hrun as (sch0 & clf & ts & _ & _ & Hrun).
  destruct (fallback_entries _ _ _ _ _ _ _ _ Hsort Hrun Hin)
    as [[] | (s & t & Hs & Ht & Hsound & _ & Hov)].
  exists s, t. auto.
Qed.

Lemma train_labels predict schedule students clf :
  predicts_training_labels predict ->
  train_teacher_recommender predict schedule students = Ok clf ->
  forall query, In (clf query) (List.map a_teacher_id schedule).
Proof.
  intros Hlabels. unfold train_teacher_recommender.
  destruct schedule as [| a rest]; [discriminate |].
  destruct (merge_on_student_id students (a :: rest)) as [| x df] eqn:E;
    [discriminate |].
  intros [= <-] query. apply (merge_labels students). rewrite E.
  now apply Hlabels.
Qed.

(** X9. With a classifier that answers with labels of its training set, the
    fallback branch only assigns teachers that already have an entry in the
    baseline schedule the classifier was trained on. *)
Theorem fallback_teachers_come_from_baseline
  predict sort_values students teachers fb trace initial_schedule a :
  sorts_descending sort_values ->
  predicts_training_labels predict ->
  match_students_to_teachers students teachers = Ok initial_schedule ->
  feedback_trace predict sort_values students teachers fb = Ok trace ->
  In (Fallback, a) trace ->
  In (a_teacher_id a) (List.map a_teacher_id initial_schedule).
Proof.
  intros Hsort Hlabels Hbase Hrun Hin.
  apply feedback_run in Hrun as (sch0 & clf & ts & Hbase' & Htrain & Hrun).
  rewrite Hbase in Hbase'. injection Hbase' as <-.
  destruct (fallback_entries _ _ _ _ _ _ _ _ Hsort Hrun Hin)
    as [[] | (s & t & _ & _ & (_ & Htid & _) & Hid & _)].
  rewrite Htid, Hid. now apply (train_labels predict _ students).
Qed.

(** ** [src/matcher.py]: order, capacities and empty frames *)

(** X10. In the schedule of either matcher the students appear in the order
    of the student frame: the student ids of the schedule are a subsequence
    of the student ids of the input, so there are no more entries than
    students. *)
Theorem schedule_follows_student_order
  predict sort_values students teachers fb :
  (forall schedule,
      match_students_to_teachers students teachers = Ok schedule ->
      sublist (List.map a_student_id schedule) (List.map student_id students) /\
      (length schedule <= length students)%nat) /\
  (forall schedule,
      match_with_feedback_loop predict sort_values students teachers fb
      = Ok schedule ->
      sublist (List.map a_student_id schedule) (List.map student_id students) /\
      (length schedule <= length students)%nat).
Proof.
  assert (forall (schedule : list Assignment),
             sublist (List.map a_student_id schedule)
                     (List.map student_id students) ->
             (length schedule <= length students)%nat) as Hlen.
  { intros schedule H. apply sublist_length in H.
    now rewrite !length_map in H. }
  split; intros schedule Hrun.
  - apply baseline_inv in Hrun as [ts Hinv].
    pose proof (inv_students _ _ _ _ Hinv) as H.
    unfold greedy_tagged in H. rewrite List.map_map in H. cbn [snd] in H.
    split; [exact H | exact (Hlen _ H)].
  - apply feedback_schedule in Hrun as (trace & Hrun & ->).
    apply feedback_inv_any in Hrun as [ts Hinv].
    pose proof (inv_students _ _ _ _ Hinv) as H.
    rewrite <- (List.map_map snd a_student_id) in H.
    split; [exact H | exact (Hlen _ H)].
Qed.

Lemma occupancy_pos_ge0 tid slot l : 0 <= occupancy tid slot l.
Proof. unfold occupancy. lia. Qed.

Lemma entry_needs_capacity teachers seen ts trace a :
  loop_inv (scanned_row teachers) seen ts trace ->
  In a (List.map snd trace) ->
  exists t, In t teachers /\ teacher_id t = a_teacher_id a /\
            0 < max_students_per_slot t.
Proof.
  intros Hinv Hin. apply in_split in Hin as (pre & post & Hsplit).
  destruct (schedule_entry _ _ _ _ _ _ _ Hinv Hsplit)
    as (p & s & t & _ & _ & [Ht _] & (_ & Htid & _) & Hlt & _).
  exists t. split; [exact Ht |]. split; [auto |].
  pose proof (occupancy_pos_ge0 (a_teacher_id a) (time_slot a) pre). lia.
Qed.

(** X11. With pairwise distinct teacher ids, a teacher whose capacity is zero
    or negative never receives a student, in either matcher. *)
Theorem no_capacity_no_students
  predict sort_values students teachers fb t :
  sorts_descending sort_values ->
  List.NoDup (List.map teacher_id teachers) ->
  In t teachers ->
  max_students_per_slot t <= 0 ->
  (forall schedule a,
      match_students_to_teachers students teachers = Ok schedule ->
      In a schedule -> a_teacher_id a <> teacher_id t) /\
  (forall schedule a,
      match_with_feedback_loop predict sort_values students teachers fb
      = Ok schedule ->
      In a schedule -> a_teacher_id a <> teacher_id t).
Proof.
  intros Hsort Hnd Ht Hcap.
  assert (forall seen ts trace a,
             loop_inv (scanned_row teachers) seen ts trace ->
             In a (List.map snd trace) -> a_teacher_id a <> teacher_id t) as H.
  { intros seen ts trace a Hinv Hin Hid.
    destruct (entry_needs_capacity _ _ _ _ _ Hinv Hin) as (t' & Ht' & Htid & Hpos).
    assert (t' = t) as -> by (eapply NoDup_teacher_eq; eauto; congruence).
    lia. }
  split; intros schedule a Hrun Hin.
  - apply baseline_inv in Hrun as [ts Hinv].
    apply (H _ _ _ _ Hinv). now rewrite greedy_tagged_snd.
  - apply feedback_schedule in Hrun as (trace & Hrun & ->).
    apply (feedback_inv _ _ _ _ _ _ Hsort) in Hrun as [ts Hinv].
    now apply (H _ _ _ _ Hinv).
Qed.

Lemma baseline_no_teachers students st :
  for_each (baseline_step []) st students = Ok st.
Proof.
  induction students as [| s students IH]; cbn [for_each]; [reflexivity |].
  unfold baseline_step at 1. cbn [scan_teachers bind]. exact IH.
Qed.

(** X12. Empty frames: without teachers, or without students, the baseline
    matcher returns the empty schedule, and the feedback matcher raises
    [KeyError] (it trains on that empty schedule). *)
Theorem empty_frames predict sort_values fb :
  (forall students,
      match_students_to_teachers students [] = Ok [] /\
      match_with_feedback_loop predict sort_values students [] fb
      = Raise KeyError) /\
  (forall teachers,
      match_students_to_teachers [] teachers = Ok [] /\
      match_with_feedback_loop predict sort_values [] teachers fb
      = Raise KeyError).
Proof.
  split.
  - intros students.
    assert (match_students_to_teachers students [] = Ok []) as H.
    { unfold match_students_to_teachers.
      now rewrite baseline_no_teachers. }
    split; [exact H |].
    unfold match_with_feedback_loop, feedback_trace. now rewrite H.
  - intros teachers. split; reflexivity.
Qed.

(** ** [src/matcher.py]: the feedback matcher never returns an empty schedule *)

Lemma baseline_first_commit teachers students ts0 ts a rest :
  for_each (baseline_step teachers) (ts0, []) students = Ok (ts, a :: rest) ->
  exists s t ts',
    In s students /\ In t teachers /\
    overlaps (subjects s) (teacher_subjects t) = true /\
    scan_slots ts0 (student_id s) (teacher_id t) (max_students_per_slot t)
      (time_overlap (preferred_time_slots s) (available_time_slots t))
    = Ok (Some (a, ts')).
Proof.
  induction students as [| s students IH]; cbn [for_each]; [discriminate |].
  unfold baseline_step at 1. cbn [fst snd].
  destruct (scan_teachers ts0 s teachers) as [[[a0 ts1] |] |] eqn:E;
    cbn [bind]; [| | discriminate].
  - intros Hrest.
    pose proof (for_each_extends _ (baseline_step_extends teachers) _ _ _ Hrest)
      as [[more Hmore] _]. cbn [snd] in Hmore. injection Hmore as -> _.
    apply scan_teachers_hit in E as (t & Ht & Hov & Hscan).
    exists s, t, ts1. split; [now left | auto].
  - intros Hrest. destruct (IH Hrest) as (s' & t & ts' & Hs' & H).
    exists s', t, ts'. split; [now right | exact H].
Qed.

Lemma feedback_all_miss sort_values w clf teachers students ts0 ts :
  for_each (feedback_step sort_values w clf teachers) (ts0, []) students
  = Ok (ts, []) ->
  forall s, In s students ->
    exists cands,
      candidate_order sort_values w s teachers = Ok cands /\
      scan_candidates ts0 s cands = Ok None.
Proof.
  induction students as [| x students IH]; cbn [for_each]; [intros _ ? [] |].
  destruct (feedback_step sort_values w clf teachers (ts0, []) x)
    as [st1 |] eqn:Hstep; cbn [bind]; [| discriminate].
  intros Hrest.
  pose proof (for_each_extends _
                (feedback_step_extends sort_values w clf teachers) _ _ _ Hrest)
    as [[more Hmore] _]. cbn [snd] in Hmore.
  apply feedback_step_effect in Hstep
    as [[-> Hmiss] | (p & a & Ha & _)].
  - intros s [<- | Hin]; [exact Hmiss | now apply IH].
  - rewrite Ha in Hmore. discriminate.
Qed.

(** X13. A schedule returned by [match_with_feedback_loop] is never empty.
    (The function raises when the baseline schedule is empty; otherwise the
    student of the baseline's first entry finds the same free slot in the
    greedy branch, unless an earlier student was placed.) *)
Theorem feedback_schedule_never_empty
  predict sort_values students teachers fb schedule :
  sorts_descending sort_values ->
  match_with_feedback_loop predict sort_values students teachers fb
  = Ok schedule ->
  schedule <> [].
Proof.
  intros Hsort Hrun Hempty.
  apply feedback_schedule in Hrun as (trace & Hrun & ->).
  apply map_eq_nil in Hempty. subst trace.
  apply feedback_run in Hrun as (sch0 & clf & ts & Hbase & Htrain & Hloop).
  destruct sch0 as [| a rest]; [discriminate |].
  apply baseline_run in Hbase as [ts1 Hbase].
  apply baseline_first_commit in Hbase as (s & t & ts' & Hs & Ht & Hov & Hscan).
  destruct (feedback_all_miss _ _ _ _ _ _ _ Hloop s Hs) as (cands & Hc & Hmiss).
  assert (In (t, teacher_weights fb (teacher_id t)) cands) as Hcand
    by (apply (candidate_order_In _ _ _ _ _ _ _ Hsort Hc); auto).
  rewrite (scan_candidates_miss _ _ _ Hmiss _ _ Hcand) in Hscan. discriminate.
Qed.

(** ** [src/matcher.py]: the feedback weights *)

Lemma sum_bounds lo hi (l : list Z) :
  (forall r, In r l -> lo <= r <= hi) ->
  lo * Z.of_nat (length l) <= fold_right Z.add 0 l <= hi * Z.of_nat (length l).
Proof.
  induction l as [| x l IH]; intros H; [simpl; lia |].
  assert (lo <= x <= hi) by (apply H; now left).
  assert (forall r, In r l -> lo <= r <= hi) as Hl by (intros; apply H; now right).
  specialize (IH Hl). cbn [fold_right length]. lia.
Qed.

Lemma mean_bounds lo hi (l : list Z) :
  l <> [] -> (forall r, In r l -> lo <= r <= hi) ->
  (inject_Z lo <= mean l <= inject_Z hi)%Q.
Proof.
  intros Hne H. pose proof (sum_bounds lo hi l H) as [Hlo Hhi].
  assert (0 < Z.of_nat (length l)) as Hn by (destruct l; [congruence | simpl; lia]).
  assert (0 < inject_Z (Z.of_nat (length l)))%Q as HnQ
    by (rewrite <- (Zlt_Qlt 0); exact Hn).
  unfold mean. split.
  - apply Qle_shift_div_l; [exact HnQ |].
    rewrite <- inject_Z_mult, <- Zle_Qle. exact Hlo.
  - apply Qle_shift_div_r; [exact HnQ |].
    rewrite <- inject_Z_mult, <- Zle_Qle. exact Hhi.
Qed.

Lemma weight_bounds lo fb tid :
  lo <= 5 ->
  (forall r, In r fb -> lo <= rating r <= 5) ->
  (inject_Z lo / inject_Z 5 <= teacher_weights (Some fb) tid <= 1)%Q.
Proof.
  intros Hlo H. unfold teacher_weights.
  assert (0 < inject_Z 5)%Q as H5 by reflexivity.
  destruct (ratings_of fb tid) as [| x rs] eqn:E.
  - split; [| apply Qle_refl].
    apply Qle_shift_div_r; [exact H5 |].
    rewrite Qmult_1_l, <- Zle_Qle. exact Hlo.
  - assert (inject_Z lo <= mean (x :: rs) <= inject_Z 5)%Q as [Hm1 Hm2].
    { apply mean_bounds; [discriminate |]. intros r Hr. rewrite <- E in Hr.
      unfold ratings_of in Hr. apply in_map_iff in Hr as (rec & <- & Hrec).
      apply filter_In in Hrec as [Hrec _]. auto. }
    split.
    + apply Qle_shift_div_l; [exact H5 |].
      unfold Qdiv at 1. rewrite <- Qmult_assoc.
      rewrite (Qmult_comm (/ inject_Z 5)), Qmult_inv_r by discriminate.
      now rewrite Qmult_1_r.
    + apply Qle_shift_div_r; [exact H5 |]. now rewrite Qmult_1_l.
Qed.

(** X14. The feedback weights: without a feedback frame, or with an empty
    one, every teacher weighs 1; a teacher without a rating weighs 1
    whatever the other ratings are; and when all ratings are between 1 and 5,
    every weight lies between 1/5 and 1. *)
Theorem teacher_weights_range :
  (forall tid, teacher_weights None tid = 1%Q /\
               teacher_weights (Some []) tid = 1%Q) /\
  (forall fb tid,
      (forall r, In r fb -> fb_teacher_id r <> tid) ->
      teacher_weights (Some fb) tid = 1%Q) /\
  (forall fb tid,
      (forall r, In r fb -> 1 <= rating r <= 5) ->
      (1 # 5 <= teacher_weights (Some fb) tid <= 1)%Q).
Proof.
  split; [| split].
  - intros tid. split; reflexivity.
  - intros fb tid Habs. unfold teacher_weights, ratings_of.
    assert (List.filter (fun r => fb_teacher_id r =? tid) fb = []) as ->.
    { induction fb as [| r fb IH]; [reflexivity |]. simpl.
      destruct (fb_teacher_id r =? tid) eqn:E.
      - apply Z.eqb_eq in E. exfalso. apply (Habs r); [now left | exact E].
      - apply IH. intros r' Hr'. apply Habs. now right. }
    reflexivity.
  - intros fb tid H.
    pose proof (weight_bounds 1 fb tid ltac:(lia) H) as [H1 H2].
    split; [| exact H2].
    eapply Qle_trans; [| exact H1]. unfold Qle. simpl. lia.
Qed.

(** ** [src/data_loader.py]: [safe_split] *)

Lemma lstrip_blank s : blank s -> lstrip s = EmptyString.
Proof.
  unfold blank, chars. induction s as [| c s IH]; simpl; [reflexivity |].
  intros H. inversion H as [| ? ? Hc Hs]; subst. rewrite Hc. auto.
Qed.

Lemma rstrip_blank s : blank s -> rstrip s = EmptyString.
Proof.
  unfold blank, chars. induction s as [| c s IH]; simpl; [reflexivity |].
  intros H. inversion H as [| ? ? Hc Hs]; subst. now rewrite (IH Hs), Hc.
Qed.

Lemma rstrip_empty_blank s : rstrip s = EmptyString -> blank s.
Proof.
  unfold blank, chars. induction s as [| c s IH]; simpl; [constructor |].
  destruct (rstrip s) as [| k kept]; [| discriminate].
  destruct (is_space c) eqn:Hc; [| discriminate].
  intros _. constructor; auto.
Qed.

Lemma lstrip_head s :
  lstrip s = EmptyString \/
  exists c rest, lstrip s = String c rest /\ is_space c = false.
Proof.
  induction s as [| c s IH]; simpl; [now left |].
  destruct (is_space c) eqn:Hc; [exact IH | right; eauto].
Qed.

Lemma lstrip_empty_blank s : lstrip s = EmptyString -> blank s.
Proof.
  unfold blank, chars. induction s as [| c s IH]; simpl; [constructor |].
  destruct (is_space c) eqn:Hc; [| discriminate].
  intros H. constructor; auto.
Qed.

Lemma rstrip_cons c rest :
  is_space c = false -> rstrip (String c rest) = String c (rstrip rest).
Proof. intros Hc. simpl. rewrite Hc. now destruct (rstrip rest). Qed.

Lemma rstrip_idem s : rstrip (rstrip s) = rstrip s.
Proof.
  induction s as [| c s IH]; simpl; [reflexivity |].
  destruct (rstrip s) as [| k kept] eqn:E.
  - destruct (is_space c) eqn:Hc; simpl; [reflexivity | now rewrite Hc].
  - change (rstrip (String c (String k kept))) with
      (match rstrip (String k kept) with
       | EmptyString => if is_space c then EmptyString else String c EmptyString
       | kept' => String c kept'
       end).
    now rewrite IH.
Qed.

Lemma strip_empty_iff s : strip s = EmptyString <-> blank s.
Proof.
  unfold strip. split.
  - intros H. apply rstrip_empty_blank in H.
    destruct (lstrip_head s) as [E | (c & rest & E & Hc)].
    + now apply lstrip_empty_blank.
    + rewrite E in H. unfold blank, chars in H. simpl in H.
      inversion H; congruence.
  - intros H. now rewrite (lstrip_blank s H).
Qed.

Lemma strip_idem s : strip (strip s) = strip s.
Proof.
  unfold strip. destruct (lstrip_head s) as [E | (c & rest & E & Hc)].
  - now rewrite E.
  - rewrite E, (rstrip_cons c rest Hc). cbn [lstrip]. rewrite Hc.
    now rewrite <- (rstrip_cons c rest Hc), rstrip_idem.
Qed.

Lemma lstrip_chars s c : In c (chars (lstrip s)) -> In c (chars s).
Proof.
  unfold chars. induction s as [| x s IH]; simpl; [tauto |].
  destruct (is_space x); simpl; auto.
Qed.

Lemma rstrip_chars s c : In c (chars (rstrip s)) -> In c (chars s).
Proof.
  unfold chars. induction s as [| x s IH]; simpl; [tauto |].
  destruct (rstrip s) as [| k kept].
  - destruct (is_space x); simpl; tauto.
  - simpl in *. tauto.
Qed.

Lemma strip_chars s c : In c (chars (strip s)) -> In c (chars s).
Proof. intros H. now apply lstrip_chars, rstrip_chars. Qed.

Lemma split_nonempty sep s : split sep s <> [].
Proof.
  destruct s as [| c s]; simpl; [discriminate |].
  destruct (Ascii.eqb c sep); [discriminate |].
  destruct (split sep s); discriminate.
Qed.

(** The pieces of a split carry the characters of the text, the separator
    excepted. *)
Lemma split_chars sep s piece c :
  In piece (split sep s) -> In c (chars piece) -> In c (chars s) /\ c <> sep.
Proof.
  unfold chars. revert piece.
  induction s as [| x s IH]; simpl; intros piece.
  - intros [<- | []] [].
  - destruct (Ascii.eqb x sep) eqn:E.
    + intros [<- | Hin] Hc; [destruct Hc |].
      destruct (IH piece Hin Hc). tauto.
    + apply Ascii.eqb_neq in E.
      destruct (split sep s) as [| p ps] eqn:Es.
      * intros [<- | []] [<- | []]. auto.
      * intros [<- | Hin] Hc.
        -- destruct Hc as [<- | Hc]; [auto |].
           destruct (IH p (or_introl Logic.eq_refl) Hc). tauto.
        -- destruct (IH piece (or_intror Hin) Hc). tauto.
Qed.

Lemma filter_nothing {A : Type} (f : A -> bool) l :
  (forall x, In x l -> f x = false) -> List.filter f l = [].
Proof.
  induction l as [| x l IH]; simpl; intros H; [reflexivity |].
  rewrite (H x) by now left. apply IH. auto.
Qed.

Lemma filter_everything {A : Type} (f : A -> bool) l :
  (forall x, In x l -> f x = true) -> List.filter f l = l.
Proof.
  induction l as [| x l IH]; simpl; intros H; [reflexivity |].
  rewrite (H x) by now left. f_equal. apply IH. auto.
Qed.

Lemma safe_split_present v default :
  ~ blank v ->
  safe_split (Some v) default
  = List.filter nonempty (List.map strip (split comma v)).
Proof.
  intros Hv. unfold safe_split.
  destruct (String.eqb (strip v) EmptyString) eqn:E; [| reflexivity].
  apply String.eqb_eq, strip_empty_iff in E. contradiction.
Qed.

(** X15. [safe_split] returns the one-element list of the default for a
    missing cell and for a cell that holds only whitespace. *)
Theorem safe_split_default default :
  safe_split None default = [default] /\
  (forall v, blank v -> safe_split (Some v) default = [default]).
Proof.
  split; [reflexivity |].
  intros v Hv. unfold safe_split.
  apply strip_empty_iff in Hv. now rewrite Hv.
Qed.

(** The items kept from a present cell are clean. *)
Lemma split_items_clean v item :
  In item (List.filter nonempty (List.map strip (split comma v))) ->
  clean item.
Proof.
  intros Hin. apply filter_In in Hin as [Hin Hne].
  apply in_map_iff in Hin as (piece & <- & Hpiece).
  split; [| split].
  - unfold nonempty in Hne. apply negb_true_iff, String.eqb_neq in Hne. exact Hne.
  - apply strip_idem.
  - intros Hc. apply strip_chars in Hc.
    destruct (split_chars _ _ _ _ Hpiece Hc) as [_ Hneq]. now apply Hneq.
Qed.

(** The items of a loaded list column. *)
Lemma loaded_items cell default items item :
  items = safe_split cell default -> In item items ->
  item = default \/ clean item.
Proof.
  intros -> Hin. destruct cell as [v |]; [| destruct Hin as [<- | []]; now left].
  unfold safe_split in Hin.
  destruct (String.eqb (strip v) EmptyString).
  - destruct Hin as [<- | []]. now left.
  - right. now apply split_items_clean in Hin.
Qed.

(** X16. Every item [safe_split] returns is either the default it was given
    or a clean item: not empty, without whitespace at either end and without
    a comma. *)
Theorem safe_split_items_clean value default item :
  In item (safe_split value default) -> item = default \/ clean item.
Proof.
  destruct value as [v |]; [| intros [<- | []]; now left].
  unfold safe_split.
  destruct (String.eqb (strip v) EmptyString); [intros [<- | []]; now left |].
  intros Hin. right. exact (split_items_clean v item Hin).
Qed.

(** X17. The list [safe_split] returns can be empty: a cell made of commas
    and whitespace only, with at least one comma, gives no item at all
    (and not the default). *)
Theorem safe_split_only_separators v default :
  (forall c, In c (chars v) -> is_space c = true \/ c = comma) ->
  In comma (chars v) ->
  safe_split (Some v) default = [].
Proof.
  intros Hall Hcomma. rewrite safe_split_present.
  - apply filter_nothing. intros item Hin.
    apply in_map_iff in Hin as (piece & <- & Hpiece).
    assert (blank piece) as Hb.
    { apply List.Forall_forall. intros c Hc.
      destruct (split_chars _ _ _ _ Hpiece Hc) as [Hv Hne].
      destruct (Hall c Hv); [assumption | contradiction]. }
    apply strip_empty_iff in Hb. now rewrite Hb.
  - intros Hb. unfold blank in Hb. rewrite List.Forall_forall in Hb.
    specialize (Hb comma Hcomma). discriminate.
Qed.

Lemma split_free sep x : ~ In sep (chars x) -> split sep x = [x].
Proof.
  unfold chars. induction x as [| c x IH]; simpl; [reflexivity |].
  intros H. destruct (Ascii.eqb c sep) eqn:E.
  - apply Ascii.eqb_eq in E. tauto.
  - rewrite IH by tauto. reflexivity.
Qed.

Lemma split_append sep x rest :
  ~ In sep (chars x) ->
  split sep (String.append x (String sep rest)) = x :: split sep rest.
Proof.
  unfold chars. induction x as [| c x IH]; simpl.
  - now rewrite Ascii.eqb_refl.
  - intros H. destruct (Ascii.eqb c sep) eqn:E.
    + apply Ascii.eqb_eq in E. tauto.
    + rewrite IH by tauto. reflexivity.
Qed.

Lemma split_concat items :
  items <> [] -> Forall clean items ->
  split comma (String.concat "," items) = items.
Proof.
  induction items as [| x items IH]; [congruence |].
  intros _ H. inversion H as [| ? ? (_ & _ & Hx) Hrest]; subst.
  destruct items as [| y items].
  - simpl. now apply split_free.
  - change (String.concat "," (x :: y :: items))
      with (String.append x (String comma (String.concat "," (y :: items)))).
    rewrite split_append by exact Hx. f_equal. apply IH; [discriminate | exact Hrest].
Qed.

Lemma string_length_lstrip s : (String.length (lstrip s) <= String.length s)%nat.
Proof.
  induction s as [| c s IH]; simpl; [lia |].
  destruct (is_space c); simpl; lia.
Qed.

Lemma string_length_rstrip s : (String.length (rstrip s) <= String.length s)%nat.
Proof.
  induction s as [| c s IH]; simpl; [lia |].
  destruct (rstrip s); [destruct (is_space c) |]; simpl in *; lia.
Qed.

Lemma clean_head item :
  clean item -> exists c rest, item = String c rest /\ is_space c = false.
Proof.
  intros (Hne & Hstrip & _). destruct item as [| c rest]; [congruence |].
  exists c, rest. split; [reflexivity |].
  destruct (is_space c) eqn:Hc; [| reflexivity]. exfalso.
  unfold strip in Hstrip. simpl in Hstrip. rewrite Hc in Hstrip.
  pose proof (string_length_rstrip (lstrip rest)).
  pose proof (string_length_lstrip rest).
  rewrite Hstrip in *. simpl in *. lia.
Qed.

Lemma concat_not_blank items :
  items <> [] -> Forall clean items -> ~ blank (String.concat "," items).
Proof.
  intros Hne H Hb. destruct items as [| x items]; [congruence |].
  inversion H as [| ? ? Hx _]; subst.
  destruct (clean_head x Hx) as (c & rest & -> & Hc).
  unfold blank, chars in Hb.
  assert (exists tail, String.concat "," (String c rest :: items) = String c tail)
    as [tail E] by (destruct items; simpl; eauto).
  rewrite E in Hb. simpl in Hb. inversion Hb. congruence.
Qed.

(** X18. Round trip: a non-empty list of clean items, joined with commas, is
    split back into the same list. *)
Theorem safe_split_join items default :
  items <> [] -> Forall clean items ->
  safe_split (Some (String.concat "," items)) default = items.
Proof.
  intros Hne H.
  rewrite safe_split_present by now apply concat_not_blank.
  rewrite split_concat by assumption.
  rewrite List.Forall_forall in H.
  assert (List.map strip items = items) as ->.
  { rewrite <- (List.map_id items) at 2. apply List.map_ext_in.
    intros x Hx. now destruct (H x Hx) as (_ & Hs & _). }
  apply filter_everything. intros x Hx. destruct (H x Hx) as (Hnx & _).
  unfold nonempty. now apply negb_true_iff, String.eqb_neq.
Qed.

(** ** [src/data_loader.py]: the loaders *)

Lemma load_students_In rows r sid :
  In r rows -> raw_student_id r = Some sid ->
  In (mkStudent sid (safe_split (raw_subjects r) "Unknown")
        (safe_split (raw_preferred_time_slots r) "N/A"))
     (load_students rows).
Proof.
  induction rows as [| x rows IH]; simpl; [tauto |].
  intros [-> | Hin] Hid.
  - rewrite Hid. now left.
  - destruct (raw_student_id x); [right |]; auto.
Qed.

Lemma load_students_inv rows s :
  In s (load_students rows) ->
  exists r, In r rows /\ raw_student_id r = Some (student_id s) /\
            subjects s = safe_split (raw_subjects r) "Unknown" /\
            preferred_time_slots s
            = safe_split (raw_preferred_time_slots r) "N/A".
Proof.
  induction rows as [| x rows IH]; simpl; [tauto |].
  destruct (raw_student_id x) as [sid |] eqn:E.
  - intros [<- | Hin].
    + exists x. simpl. auto.
    + destruct (IH Hin) as (r & Hr & H). exists r. auto.
  - intros Hin. destruct (IH Hin) as (r & Hr & H). exists r. auto.
Qed.

Lemma load_teachers_inv rows t :
  In t (load_teachers rows) ->
  exists r, In r rows /\ raw_teacher_id r = Some (teacher_id t) /\
            teacher_subjects t = safe_split (raw_teacher_subjects r) "Unknown" /\
            available_time_slots t
            = safe_split (raw_available_time_slots r) "N/A" /\
            max_students_per_slot t = raw_max_students_per_slot r.
Proof.
  induction rows as [| x rows IH]; simpl; [tauto |].
  destruct (raw_teacher_id x) as [tid |] eqn:E.
  - intros [<- | Hin].
    + exists x. simpl. auto.
    + destruct (IH Hin) as (r & Hr & H). exists r. auto.
  - intros Hin. destruct (IH Hin) as (r & Hr & H). exists r. auto.
Qed.

(** X19. The loaders keep exactly the rows that have an id, in frame order
    and with their ids, and the lists of a loaded row hold only clean items
    or the placeholder of the column ("Unknown" for subjects, "N/A" for
    slots). *)
Theorem loaders_keep_rows_with_id :
  (forall rows,
      List.map student_id (load_students rows) = omap raw_student_id rows /\
      forall s, In s (load_students rows) ->
        (forall x, In x (subjects s) -> x = "Unknown" \/ clean x) /\
        (forall x, In x (preferred_time_slots s) -> x = "N/A" \/ clean x)) /\
  (forall rows,
      List.map teacher_id (load_teachers rows) = omap raw_teacher_id rows /\
      forall t, In t (load_teachers rows) ->
        (forall x, In x (teacher_subjects t) -> x = "Unknown" \/ clean x) /\
        (forall x, In x (available_time_slots t) -> x = "N/A" \/ clean x)).
Proof.
  split; intros rows; split.
  - induction rows as [| r rows IH]; [reflexivity |].
    cbn [load_students omap list_omap]. rewrite <- IH.
    now destruct (raw_student_id r).
  - intros s Hs. apply load_students_inv in Hs as (r & _ & _ & Hsubj & Hslots).
    split; intros x; [exact (loaded_items _ _ _ x Hsubj) |
                      exact (loaded_items _ _ _ x Hslots)].
  - induction rows as [| r rows IH]; [reflexivity |].
    cbn [load_teachers omap list_omap]. rewrite <- IH.
    now destruct (raw_teacher_id r).
  - intros t Ht.
    apply load_teachers_inv in Ht as (r & _ & _ & Hsubj & Hslots & _).
    split; intros x; [exact (loaded_items _ _ _ x Hsubj) |
                      exact (loaded_items _ _ _ x Hslots)].
Qed.

Lemma NoDup_student_eq students s s' :
  List.NoDup (List.map student_id students) ->
  In s students -> In s' students -> student_id s = student_id s' -> s = s'.
Proof.
  induction students as [| x students IH]; simpl; [tauto |].
  intros Hnd. inversion Hnd as [| ? ? Hnotin Hnd']; subst.
  intros [-> | Hin] [-> | Hin'] Hid; auto.
  - exfalso. apply Hnotin. rewrite Hid. now apply in_map.
  - exfalso. apply Hnotin. rewrite <- Hid. now apply in_map.
Qed.

(** X20. Loader and matchers together: a student row whose slot cell is
    missing is loaded with the placeholder slot "N/A", and the matchers treat
    it as an ordinary slot; with pairwise distinct student ids every
    assignment of that student, by either matcher, is at slot "N/A", with a
    teacher that lists "N/A" as available. *)
Theorem missing_slots_match_on_placeholder
  predict sort_values rows teachers fb r sid :
  sorts_descending sort_values ->
  List.NoDup (List.map student_id (load_students rows)) ->
  In r rows -> raw_student_id r = Some sid ->
  raw_preferred_time_slots r = None ->
  (forall schedule a,
      match_students_to_teachers (load_students rows) teachers = Ok schedule ->
      In a schedule -> a_student_id a = sid ->
      time_slot a = "N/A" /\
      exists t, In t teachers /\ teacher_id t = a_teacher_id a /\
                In "N/A" (available_time_slots t)) /\
  (forall schedule a,
      match_with_feedback_loop predict sort_values (load_students rows)
        teachers fb = Ok schedule ->
      In a schedule -> a_student_id a = sid ->
      time_slot a = "N/A" /\
      exists t, In t teachers /\ teacher_id t = a_teacher_id a /\
                In "N/A" (available_time_slots t)).
Proof.
  intros Hsort Hnd Hr Hid Hmissing.
  pose proof (load_students_In rows r sid Hr Hid) as Hloaded.
  rewrite Hmissing in Hloaded. cbn [safe_split] in Hloaded.
  assert (forall ts trace a,
             loop_inv (scanned_row teachers) (load_students rows) ts trace ->
             In a (List.map snd trace) -> a_student_id a = sid ->
             time_slot a = "N/A" /\
             exists t, In t teachers /\ teacher_id t = a_teacher_id a /\
                       In "N/A" (available_time_slots t)) as H.
  { intros ts trace a Hinv Hin Hsid.
    apply in_split in Hin as (pre & post & Hsplit).
    destruct (schedule_entry _ _ _ _ _ _ _ Hinv Hsplit)
      as (p & s & t & _ & Hs & [Ht _] & (Hs_id & Ht_id & Hpref & Havail) & _).
    assert (s = mkStudent sid (safe_split (raw_subjects r) "Unknown") ["N/A"])
      as ->.
    { apply (NoDup_student_eq (load_students rows)); auto. simpl. congruence. }
    simpl in Hpref. destruct Hpref as [Hslot | []].
    split; [auto |]. exists t. rewrite Hslot. auto. }
  split; intros schedule a Hrun Hin Hsid.
  - apply baseline_inv in Hrun as [ts Hinv].
    apply (H ts _ a Hinv); [now rewrite greedy_tagged_snd | exact Hsid].
  - apply feedback_schedule in Hrun as (trace & Hrun & ->).
    apply (feedback_inv _ _ _ _ _ _ Hsort) in Hrun as [ts Hinv].
    now apply (H ts trace a Hinv).
Qed.

(** ** [src/feedback.py]: [generate_feedback] *)

Lemma row_of_entry_cells a :
  row_of_entry a !! "match_type" = None /\
  cell (row_of_entry a) "student_id" = Ok (PyInt (a_student_id a)) /\
  cell (row_of_entry a) "teacher_id" = Ok (PyInt (a_teacher_id a)) /\
  cell (row_of_entry a) "time_slot" = Ok (PyStr (time_slot a)).
Proof. repeat split. Qed.

Lemma comments_pool_nonempty : COMMENTS_POOL <> [].
Proof. discriminate. Qed.

Lemma simulate_schedule {Rng : Type} (randint : Rng -> Z -> Z -> Z * Rng)
  (choice : Rng -> list string -> string * Rng) schedule g :
  draws_in_range randint -> picks_from choice ->
  exists out g',
    simulate_rows Rng randint choice g (List.map row_of_entry schedule)
    = Ok (out, g') /\
    Forall2 feedback_of schedule out.
Proof.
  intros Hrand Hchoice. revert g.
  induction schedule as [| a schedule IH]; intros g.
  - exists [], g. split; [reflexivity | constructor].
  - cbn [List.map simulate_rows].
    destruct (row_of_entry_cells a) as (-> & -> & -> & ->).
    cbn [default py_in contains String.prefix orb bind].
    pose proof (Hrand g 4 5 ltac:(lia)) as Hr.
    destruct (randint g 4 5) as [rating g1].
    pose proof (Hchoice g1 COMMENTS_POOL comments_pool_nonempty) as Hc.
    destruct (choice g1 COMMENTS_POOL) as [comment g2].
    destruct (IH g2) as (out & g' & -> & Hout). cbn [bind fst snd].
    exists (mkFeedbackEntry (PyInt (a_student_id a)) (PyInt (a_teacher_id a))
              (PyStr (time_slot a)) rating comment :: out), g'.
    split; [reflexivity |]. constructor; [| exact Hout].
    unfold feedback_of. simpl in *. auto.
Qed.

(** X21. [generate_feedback] raises [ValueError] when one of the columns
    "student_id", "teacher_id", "time_slot" is missing from the frame; in
    particular on the frame built from an empty schedule, which has no
    column. *)
Theorem generate_feedback_needs_columns {Rng : Type}
  (randint : Rng -> Z -> Z -> Z * Rng)
  (choice : Rng -> list string -> string * Rng) :
  (forall schedule_df g c,
      In c ["student_id"; "teacher_id"; "time_slot"] ->
      ~ In c (columns schedule_df) ->
      generate_feedback Rng randint choice schedule_df g = Raise ValueError) /\
  (forall g,
      generate_feedback Rng randint choice (frame_of_schedule []) g
      = Raise ValueError).
Proof.
  split; [| reflexivity].
  intros df g c Hc Hmissing. unfold generate_feedback.
  destruct (forallb _ _) eqn:E; [| reflexivity]. exfalso.
  rewrite forallb_forall in E. specialize (E c Hc).
  apply existsb_exists in E as (x & Hx & Heq).
  apply String.eqb_eq in Heq. subst x. contradiction.
Qed.

Lemma generate_feedback_rows {Rng : Type}
  (randint : Rng -> Z -> Z -> Z * Rng)
  (choice : Rng -> list string -> string * Rng) schedule g :
  draws_in_range randint -> picks_from choice ->
  schedule <> [] ->
  exists out g',
    generate_feedback Rng randint choice (frame_of_schedule schedule) g
    = Ok (out, g') /\
    Forall2 feedback_of schedule out.
Proof.
  intros Hrand Hchoice Hne.
  destruct schedule as [| a rest]; [congruence |].
  unfold generate_feedback, frame_of_schedule. cbn [columns rows].
  change (forallb _ _) with true. cbn iota.
  now apply simulate_schedule.
Qed.

(** X22. On the frame of a non-empty schedule of the matchers,
    [generate_feedback] returns one entry per assignment, in order, with the
    ids and the slot of the assignment, a comment of the pool, and a rating
    of 4 or 5 whatever the lesson type: the lower ratings are drawn for rows
    whose "match_type" contains "group", and the schedule has no such
    column. *)
Theorem generate_feedback_of_schedule {Rng : Type}
  (randint : Rng -> Z -> Z -> Z * Rng)
  (choice : Rng -> list string -> string * Rng) schedule g :
  draws_in_range randint -> picks_from choice ->
  schedule <> [] ->
  exists out g',
    generate_feedback Rng randint choice (frame_of_schedule schedule) g
    = Ok (out, g') /\
    Forall2 feedback_of schedule out.
Proof. apply generate_feedback_rows. Qed.

Lemma feedback_of_ratings schedule out r :
  Forall2 feedback_of schedule out ->
  In r (omap feedback_record out) -> 4 <= rating r <= 5.
Proof.
  induction 1 as [| a f schedule out Hf _ IH]; [intros [] |].
  cbn [omap list_omap]. unfold feedback_record at 1.
  destruct Hf as (-> & -> & -> & Hr & _).
  intros [<- | Hin]; [exact Hr | now apply IH].
Qed.

(** X23. Feedback simulated from a schedule and fed back to the matcher
    gives every teacher a weight between 4/5 and 1. *)
Theorem simulated_feedback_weights {Rng : Type}
  (randint : Rng -> Z -> Z -> Z * Rng)
  (choice : Rng -> list string -> string * Rng) schedule g out g' tid :
  draws_in_range randint -> picks_from choice ->
  generate_feedback Rng randint choice (frame_of_schedule schedule) g
  = Ok (out, g') ->
  (4 # 5 <= teacher_weights (Some (omap feedback_record out)) tid <= 1)%Q.
Proof.
  intros Hrand Hchoice Hgen.
  assert (schedule <> []) as Hne by (intros ->; discriminate).
  destruct (generate_feedback_rows randint choice schedule g Hrand Hchoice Hne)
    as (out0 & g0 & Hgen0 & Hout).
  rewrite Hgen in Hgen0. injection Hgen0 as <- <-.
  pose proof (weight_bounds 4 (omap feedback_record out) tid ltac:(lia)
                (fun r Hr => feedback_of_ratings schedule out r Hout Hr))
    as [H1 H2].
  split; [| exact H2].
  eapply Qle_trans; [| exact H1]. unfold Qle. simpl. lia.
Qed.

Lemma counter_randint_range : draws_in_range counter_randint.
Proof.
  intros g a b Hab. unfold counter_randint. cbn [fst].
  pose proof (Z.mod_pos_bound (Z.of_nat g) (b - a + 1) ltac:(lia)). lia.
Qed.

Lemma counter_choice_picks : picks_from counter_choice.
Proof.
  intros g l Hne. unfold counter_choice. cbn [fst]. apply nth_In.
  apply Nat.mod_upper_bound. destruct l; [congruence | simpl; lia].
Qed.

(** ** [src/evaluator.py]: [evaluate_schedule] *)

Lemma group_sizes_snoc l a :
  group_sizes (l ++ [a])
  = <[(a_teacher_id a, time_slot a) :=
        S (default 0%nat (group_sizes l !! (a_teacher_id a, time_slot a)))]>
      (group_sizes l).
Proof. unfold group_sizes. now rewrite fold_left_app. Qed.

Lemma on_pair_key tid slot a :
  on_pair tid slot a = true <-> (a_teacher_id a, time_slot a) = (tid, slot).
Proof.
  unfold on_pair. rewrite andb_true_iff, Z.eqb_eq, bool_decide_eq_true.
  split; [intros [-> ->]; reflexivity | intros [= -> ->]; auto].
Qed.

(** A group is present exactly when it has an entry, with its count. *)
Lemma group_sizes_lookup l tid slot :
  group_sizes l !! (tid, slot)
  = match length (List.filter (on_pair tid slot) l) with
    | O => None
    | S n => Some (S n)
    end.
Proof.
  induction l as [| a l IH] using rev_ind; [reflexivity |].
  rewrite group_sizes_snoc, List.filter_app, length_app. cbn [List.filter].
  destruct (on_pair tid slot a) eqn:E.
  - apply on_pair_key in E. rewrite E, lookup_insert_eq, IH. cbn [length].
    destruct (length (List.filter (on_pair tid slot) l)); simpl; f_equal; lia.
  - rewrite lookup_insert_ne, IH.
    + cbn [length]. now rewrite Nat.add_0_r.
    + intros Hk. apply on_pair_key in Hk. congruence.
Qed.

Lemma clean_schedule_pair tid slot schedule :
  List.filter (on_pair tid slot) (clean_schedule schedule)
  = if String.eqb slot "N/A" then []
    else List.filter (on_pair tid slot) schedule.
Proof.
  unfold clean_schedule.
  induction schedule as [| a l IH]; simpl; [now destruct (String.eqb _ _) |].
  destruct (String.eqb (time_slot a) "N/A") eqn:Ea; simpl.
  - rewrite IH. destruct (String.eqb slot "N/A") eqn:Es; [reflexivity |].
    destruct (on_pair tid slot a) eqn:E; [| reflexivity].
    apply on_pair_key in E. injection E as _ E. subst slot. congruence.
  - rewrite IH. destruct (on_pair tid slot a) eqn:E; [| reflexivity].
    apply on_pair_key in E. injection E as _ E. subst slot.
    now rewrite Ea.
Qed.

Lemma nunique_le l : (nunique l <= length l)%nat.
Proof.
  unfold nunique. induction l as [| x l IH]; simpl; [lia |].
  destruct (in_dec Z.eq_dec x l); simpl; lia.
Qed.

Lemma nunique_distinct l : List.NoDup l -> nunique l = length l.
Proof. intros H. unfold nunique. now rewrite nodup_fixed_point. Qed.

Lemma NoDup_map_filter {A B : Type} (f : A -> B) (p : A -> bool) l :
  List.NoDup (List.map f l) -> List.NoDup (List.map f (List.filter p l)).
Proof.
  induction l as [| x l IH]; simpl; [auto |].
  intros H. inversion H as [| ? ? Hnotin Hnd]; subst.
  destruct (p x); simpl; [| auto].
  constructor; [| auto]. intros Hin. apply Hnotin.
  apply in_map_iff in Hin as (y & <- & Hy). apply filter_In in Hy as [Hy _].
  now apply in_map.
Qed.

(** X24. [evaluate_schedule] raises [ValueError] on the frame of an empty
    schedule. Otherwise the number of matched students is the number of
    distinct student ids among the entries outside slot "N/A": it is the
    length of a list without repetition that holds exactly those ids (so at
    most the number of those entries, and equal to it when no id repeats).
    The utilisation table has one group per teacher id and slot outside "N/A"
    with at least one entry, sized by the number of entries on that pair;
    entries at the placeholder slot "N/A" are counted nowhere. *)
Theorem evaluate_schedule_summary :
  evaluate_schedule [] = Raise ValueError /\
  (forall schedule,
      schedule <> [] ->
      exists matched usage,
        evaluate_schedule schedule = Ok (matched, usage) /\
        (exists ids,
            List.NoDup ids /\
            (forall sid,
                In sid ids <->
                In sid (List.map a_student_id (clean_schedule schedule))) /\
            matched = length ids) /\
        (matched <= length (clean_schedule schedule))%nat /\
        (List.NoDup (List.map a_student_id schedule) ->
         matched = length (clean_schedule schedule)) /\
        (forall tid, usage !! (tid, "N/A") = None) /\
        (forall tid slot,
            slot <> "N/A" ->
            Z.of_nat (default 0%nat (usage !! (tid, slot)))
            = occupancy tid slot schedule /\
            (usage !! (tid, slot) = None <-> occupancy tid slot schedule = 0))).
Proof.
  split; [reflexivity |].
  intros schedule Hne. destruct schedule as [| a rest]; [congruence |].
  eexists _, _. split; [reflexivity |].
  set (schedule := a :: rest).
  split; [| split; [| split; [| split]]].
  - exists (nodup Z.eq_dec (List.map a_student_id (clean_schedule schedule))).
    split; [apply NoDup_nodup |].
    split; [intros sid; apply nodup_In | reflexivity].
  - rewrite <- (length_map a_student_id (clean_schedule schedule)).
    apply nunique_le.
  - intros Hnd. rewrite nunique_distinct, length_map; [reflexivity |].
    now apply NoDup_map_filter.
  - intros tid. rewrite group_sizes_lookup, clean_schedule_pair. reflexivity.
  - intros tid slot Hslot. rewrite group_sizes_lookup, clean_schedule_pair.
    apply String.eqb_neq in Hslot. rewrite Hslot. unfold occupancy.
    destruct (length (List.filter (on_pair tid slot) schedule)) eqn:E; simpl.
    + split; [reflexivity | tauto].
    + split; [reflexivity |]. split; [discriminate | lia].
Qed.

Lemma evaluate_schedule_ok schedule matched usage :
  evaluate_schedule schedule = Ok (matched, usage) ->
  matched = nunique (List.map a_student_id (clean_schedule schedule)) /\
  usage = group_sizes (clean_schedule schedule).
Proof.
  destruct schedule as [| a rest]; [discriminate |].
  unfold evaluate_schedule. intros H. injection H as <- <-. auto.
Qed.

Lemma evaluation_bounds schedule matched usage cap tid slot n :
  evaluate_schedule schedule = Ok (matched, usage) ->
  occupancy tid slot schedule <= cap ->
  usage !! (tid, slot) = Some n ->
  Z.of_nat n <= cap.
Proof.
  intros Heval Hocc. apply evaluate_schedule_ok in Heval as [_ ->].
  rewrite group_sizes_lookup, clean_schedule_pair.
  destruct (String.eqb slot "N/A"); [discriminate |].
  unfold occupancy in Hocc.
  destruct (length (List.filter (on_pair tid slot) schedule));
    [discriminate |].
  intros [= <-]. exact Hocc.
Qed.

Lemma evaluation_matched schedule matched usage :
  evaluate_schedule schedule = Ok (matched, usage) ->
  (matched <= length schedule)%nat.
Proof.
  intros Heval. apply evaluate_schedule_ok in Heval as [-> _].
  etransitivity; [apply nunique_le |]. rewrite length_map.
  unfold clean_schedule. apply List.filter_length_le.
Qed.

(** X26. Evaluating the schedule of either matcher (distinct teacher ids,
    capacities not negative): the number of matched students is at most the
    number of students, and every group of the utilisation table that
    belongs to a teacher of the frame holds at most that teacher's
    [max_students_per_slot] students. *)
Theorem evaluation_within_capacity
  predict sort_values students teachers fb schedule matched usage :
  sorts_descending sort_values ->
  List.NoDup (List.map teacher_id teachers) ->
  (forall t, In t teachers -> 0 <= max_students_per_slot t) ->
  match_students_to_teachers students teachers = Ok schedule \/
  match_with_feedback_loop predict sort_values students teachers fb
  = Ok schedule ->
  evaluate_schedule schedule = Ok (matched, usage) ->
  (matched <= length students)%nat /\
  (forall t slot n,
      In t teachers -> usage !! (teacher_id t, slot) = Some n ->
      Z.of_nat n <= max_students_per_slot t).
Proof.
  intros Hsort Hnd Hcap Hrun Heval.
  assert (exists ts trace,
             schedule = List.map snd trace /\
             loop_inv (scanned_row teachers) students ts trace)
    as (ts & trace & -> & Hinv).
  { destruct Hrun as [Hrun | Hrun].
    - apply baseline_inv in Hrun as [ts Hinv].
      exists ts, (greedy_tagged schedule).
      now rewrite greedy_tagged_snd.
    - apply feedback_schedule in Hrun as (trace & Hrun & ->).
      apply (feedback_inv _ _ _ _ _ _ Hsort) in Hrun as [ts Hinv].
      eauto. }
  split.
  - etransitivity; [exact (evaluation_matched _ _ _ Heval) |].
    pose proof (inv_students _ _ _ _ Hinv) as Hsub.
    apply sublist_length in Hsub. now rewrite !length_map in *.
  - intros t slot n Hin Hlook.
    apply (evaluation_bounds _ _ _ _ (teacher_id t) slot n Heval);
      [| exact Hlook].
    eapply loop_inv_capacity; eauto.
Qed.

(** ** [src/matcher.py]: the training frame of [train_teacher_recommender] *)

Lemma filter_no_student (schedule : list Assignment) ids sid :
  sublist (List.map a_student_id schedule) ids -> ~ In sid ids ->
  List.filter (fun a => a_student_id a =? sid) schedule = [].
Proof.
  intros Hsub Hnotin. apply filter_nothing. intros a Ha.
  apply Z.eqb_neq. intros Heq. apply Hnotin.
  apply list_elem_of_In.
  apply (elem_of_sublist (List.map a_student_id schedule)); [| exact Hsub].
  apply list_elem_of_In. rewrite <- Heq. now apply in_map.
Qed.

Lemma merge_skip_entry students a schedule :
  ~ In (a_student_id a) (List.map student_id students) ->
  merge_on_student_id students (a :: schedule)
  = merge_on_student_id students schedule.
Proof.
  unfold merge_on_student_id.
  induction students as [| s rest IH]; [reflexivity |].
  intros Hnotin. cbn [flat_map].
  rewrite IH by (intros H; apply Hnotin; now right).
  cbn [List.filter].
  destruct (a_student_id a =? student_id s) eqn:E; [| reflexivity].
  apply Z.eqb_eq in E. exfalso. apply Hnotin. left. now symmetry.
Qed.

Lemma merge_of_subsequence students :
  List.NoDup (List.map student_id students) ->
  forall schedule,
    sublist (List.map a_student_id schedule) (List.map student_id students) ->
    List.map snd (merge_on_student_id students schedule)
    = List.map a_teacher_id schedule.
Proof.
  induction students as [| s rest IH]; intros Hnd schedule Hsub.
  - apply sublist_nil_r in Hsub. destruct schedule; [reflexivity | discriminate].
  - cbn [List.map] in Hnd, Hsub.
    inversion Hnd as [| ? ? Hnotin Hnd']; subst.
    apply sublist_cons_r in Hsub as [Hsub | (ids & Hids & Hsub)].
    + change (merge_on_student_id (s :: rest) schedule)
        with (List.map (fun a => (subjects s, a_teacher_id a))
                (List.filter (fun a => a_student_id a =? student_id s) schedule)
              ++ merge_on_student_id rest schedule).
      rewrite (filter_no_student _ _ _ Hsub Hnotin). now apply IH.
    + destruct schedule as [| a sch]; [discriminate |].
      cbn [List.map] in Hids. injection Hids as Hid <-.
      change (merge_on_student_id (s :: rest) (a :: sch))
        with (List.map (fun a => (subjects s, a_teacher_id a))
                (List.filter (fun a => a_student_id a =? student_id s) (a :: sch))
              ++ merge_on_student_id rest (a :: sch)).
      cbn [List.filter]. rewrite Hid, Z.eqb_refl.
      rewrite (filter_no_student _ _ _ Hsub Hnotin).
      rewrite merge_skip_entry by now rewrite Hid.
      cbn [List.map app snd]. f_equal. now apply IH.
Qed.

(** X25. When the student ids are distinct, the frame
    [train_teacher_recommender] fits on has exactly one example per entry of
    the baseline schedule, in the order of the schedule, labelled with the
    teacher id of that entry: unmatched students contribute no example. *)
Theorem training_frame_mirrors_schedule students teachers schedule :
  List.NoDup (List.map student_id students) ->
  match_students_to_teachers students teachers = Ok schedule ->
  List.map snd (merge_on_student_id students schedule)
  = List.map a_teacher_id schedule /\
  length (merge_on_student_id students schedule) = length schedule.
Proof.
  intros Hnd Hrun. apply baseline_inv in Hrun as [ts Hinv].
  pose proof (inv_students _ _ _ _ Hinv) as Hsub.
  unfold greedy_tagged in Hsub. rewrite List.map_map in Hsub. cbn [snd] in Hsub.
  pose proof (merge_of_subsequence students Hnd schedule Hsub) as H.
  split; [exact H |].
  apply (f_equal (@length Z)) in H. now rewrite !length_map in H.
Qed.

(** ** The further properties at concrete frames *)

Lemma subject_overlap_spec_witness :
  subject_overlap PyNone (py_strs ["Math"]) = Raise TypeError.
Proof.
  apply (proj1 (proj2 subject_overlap_spec)). left. reflexivity.
Defined.

Lemma time_overlap_of_sets_witness :
  available_time_overlap (py_strs ["Mon9"; "Tue10"; "Mon9"]) (py_strs ["Mon9"])
  = available_time_overlap (py_strs ["Tue10"; "Mon9"]) (py_strs ["Mon9"]) /\
  List.NoDup (time_overlap ["Mon9"; "Tue10"; "Mon9"] ["Mon9"]).
Proof.
  apply (time_overlap_of_sets ["Mon9"; "Tue10"; "Mon9"] ["Tue10"; "Mon9"]
           ["Mon9"] ["Mon9"]).
  - intros x. simpl. tauto.
  - intros x. tauto.
Defined.

Lemma loops_only_grow_witness :
  match for_each (baseline_step two_teachers)
          (init_teacher_slots two_teachers, []) ([s_math1] ++ [s_math2; s_math3])
  with
  | Ok st2 =>
      exists st1,
        for_each (baseline_step two_teachers)
          (init_teacher_slots two_teachers, []) [s_math1] = Ok st1 /\
        extends (init_teacher_slots two_teachers, []) st1 /\ extends st1 st2
  | Raise _ => False
  end.
Proof.
  destruct (for_each (baseline_step two_teachers)
              (init_teacher_slots two_teachers, [])
              ([s_math1] ++ [s_math2; s_math3])) as [st2 | e] eqn:E.
  - exact (proj1 loops_only_grow two_teachers [s_math1] [s_math2; s_math3]
             _ st2 E).
  - vm_compute in E. discriminate.
Defined.

Lemma baseline_unmatched_have_no_room_witness :
  ~ In (student_id s_math3) (List.map a_student_id two_seats_schedule) /\
  no_room_left two_seats_schedule s_math3 t_math1.
Proof.
  assert (~ In (student_id s_math3) (List.map a_student_id two_seats_schedule))
    as Hout by (simpl; intuition discriminate).
  split; [exact Hout |].
  apply (baseline_unmatched_have_no_room three_students two_teachers).
  - vm_compute. reflexivity.
  - simpl. auto.
  - exact Hout.
  - simpl. auto.
  - vm_compute. reflexivity.
Defined.

Lemma feedback_unmatched_have_no_room_witness :
  sorts_descending stable_sort_desc /\
  no_room_left two_seats_schedule s_math3 t_math2.
Proof.
  split; [exact stable_sort_desc_sorts |].
  apply (feedback_unmatched_have_no_room predict_first_label stable_sort_desc
           three_students two_teachers None).
  - exact stable_sort_desc_sorts.
  - vm_compute. reflexivity.
  - simpl. auto.
  - simpl. intuition discriminate.
  - simpl. auto.
  - vm_compute. reflexivity.
Defined.

Lemma fallback_pairs_share_no_subject_witness :
  In (Fallback, entry 4 7 "Mon9" "group") mixed_trace /\
  exists s t,
    In s mixed_students /\ In t one_teacher /\
    slot_sound s t (entry 4 7 "Mon9" "group") /\
    overlaps (subjects s) (teacher_subjects t) = false.
Proof.
  assert (In (Fallback, entry 4 7 "Mon9" "group") mixed_trace) as Hin
    by (simpl; auto).
  split; [exact Hin |].
  apply (fallback_pairs_share_no_subject predict_first_label stable_sort_desc
           mixed_students one_teacher None mixed_trace).
  - exact stable_sort_desc_sorts.
  - vm_compute. reflexivity.
  - exact Hin.
Defined.

Lemma fallback_teachers_come_from_baseline_witness :
  predicts_training_labels predict_first_label /\
  In (a_teacher_id (entry 4 7 "Mon9" "group"))
     (List.map a_teacher_id [entry 1 7 "Mon9" "1:1"]).
Proof.
  split; [exact predict_first_label_ok |].
  apply (fallback_teachers_come_from_baseline predict_first_label
           stable_sort_desc mixed_students one_teacher None mixed_trace).
  - exact stable_sort_desc_sorts.
  - exact predict_first_label_ok.
  - vm_compute. reflexivity.
  - vm_compute. reflexivity.
  - simpl. auto.
Defined.

Lemma schedule_follows_student_order_witness :
  sublist (List.map a_student_id two_seats_schedule)
          (List.map student_id three_students) /\
  (length two_seats_schedule <= length three_students)%nat.
Proof.
  apply (proj1 (schedule_follows_student_order predict_first_label
                  stable_sort_desc three_students two_teachers None)).
  vm_compute. reflexivity.
Defined.

Lemma no_capacity_no_students_witness :
  max_students_per_slot t_closed <= 0 /\
  a_teacher_id (entry 1 1 "Mon9" "1:1") <> teacher_id t_closed.
Proof.
  assert (max_students_per_slot t_closed <= 0) as Hcap by (simpl; lia).
  split; [exact Hcap |].
  refine (proj1 (no_capacity_no_students predict_first_label stable_sort_desc
                   three_students closed_teachers None t_closed
                   stable_sort_desc_sorts _ _ Hcap)
            [entry 1 1 "Mon9" "1:1"] _ _ _).
  - distinct_ids.
  - simpl. auto.
  - vm_compute. reflexivity.
  - simpl. auto.
Defined.

Lemma feedback_schedule_never_empty_witness :
  sorts_descending stable_sort_desc /\ two_seats_schedule <> [].
Proof.
  split; [exact stable_sort_desc_sorts |].
  apply (feedback_schedule_never_empty predict_first_label stable_sort_desc
           three_students two_teachers None).
  - exact stable_sort_desc_sorts.
  - vm_compute. reflexivity.
Defined.

Lemma teacher_weights_range_witness :
  (1 # 5 <= teacher_weights (Some ratings) 1 <= 1)%Q.
Proof.
  apply (proj2 (proj2 teacher_weights_range)).
  intros r [<- | [<- | []]]; simpl; lia.
Defined.

Lemma safe_split_default_witness :
  blank "  " /\ safe_split (Some "  ") "N/A" = ["N/A"].
Proof.
  assert (blank "  ") as Hblank by (repeat constructor).
  split; [exact Hblank |].
  exact (proj2 (safe_split_default "N/A") "  " Hblank).
Defined.

Lemma safe_split_items_clean_witness :
  In "Art" (safe_split (Some "Math, Art") "Unknown") /\
  ("Art" = "Unknown" \/ clean "Art").
Proof.
  assert (In "Art" (safe_split (Some "Math, Art") "Unknown")) as Hin
    by (vm_compute; auto).
  split; [exact Hin |].
  exact (safe_split_items_clean (Some "Math, Art") "Unknown" "Art" Hin).
Defined.

Lemma safe_split_only_separators_witness :
  In comma (chars " , ,") /\ safe_split (Some " , ,") "Unknown" = [].
Proof.
  assert (In comma (chars " , ,")) as Hcomma by (simpl; auto).
  split; [exact Hcomma |].
  apply safe_split_only_separators; [| exact Hcomma].
  intros c [<- | [<- | [<- | [<- | []]]]]; auto.
Defined.

Lemma safe_split_join_witness :
  Forall clean ["Math"; "Art"] /\
  safe_split (Some (String.concat "," ["Math"; "Art"])) "Unknown"
  = ["Math"; "Art"].
Proof.
  assert (Forall clean ["Math"; "Art"]) as Hclean.
  { repeat constructor; try discriminate; simpl; intuition discriminate. }
  split; [exact Hclean |].
  apply safe_split_join; [discriminate | exact Hclean].
Defined.

Lemma loaders_keep_rows_with_id_witness :
  List.map student_id (load_students raw_students) = [1].
Proof.
  exact (proj1 (proj1 loaders_keep_rows_with_id raw_students)).
Defined.

Lemma missing_slots_match_on_placeholder_witness :
  List.NoDup (List.map student_id (load_students raw_students)) /\
  time_slot (entry 1 1 "N/A" "1:1") = "N/A" /\
  exists t, In t [t_placeholder] /\
            teacher_id t = a_teacher_id (entry 1 1 "N/A" "1:1") /\
            In "N/A" (available_time_slots t).
Proof.
  assert (List.NoDup (List.map student_id (load_students raw_students)))
    as Hnd by (simpl; distinct_ids).
  split; [exact Hnd |].
  refine (proj1 (missing_slots_match_on_placeholder predict_first_label
                   stable_sort_desc raw_students [t_placeholder] None
                   (mkRawStudent (Some 1) (Some "Math") None) 1
                   stable_sort_desc_sorts Hnd _ _ _)
            [entry 1 1 "N/A" "1:1"] (entry 1 1 "N/A" "1:1") _ _ _).
  - simpl. auto.
  - reflexivity.
  - reflexivity.
  - vm_compute. reflexivity.
  - simpl. auto.
  - reflexivity.
Defined.

Lemma generate_feedback_needs_columns_witness :
  ~ In "time_slot" (columns two_columns) /\
  generate_feedback nat counter_randint counter_choice two_columns 0%nat
  = Raise ValueError.
Proof.
  assert (~ In "time_slot" (columns two_columns)) as Hmiss
    by (simpl; intuition discriminate).
  split; [exact Hmiss |].
  apply (proj1 (generate_feedback_needs_columns counter_randint counter_choice)
           two_columns 0%nat "time_slot"); [simpl; auto | exact Hmiss].
Defined.

Lemma generate_feedback_of_schedule_witness :
  draws_in_range counter_randint /\ picks_from counter_choice /\
  exists out g',
    generate_feedback nat counter_randint counter_choice
      (frame_of_schedule two_seats_schedule) 0%nat = Ok (out, g') /\
    Forall2 feedback_of two_seats_schedule out.
Proof.
  split; [exact counter_randint_range |].
  split; [exact counter_choice_picks |].
  apply generate_feedback_of_schedule;
    [exact counter_randint_range | exact counter_choice_picks | discriminate].
Defined.

Lemma simulated_feedback_weights_witness :
  match generate_feedback nat counter_randint counter_choice
          (frame_of_schedule two_seats_schedule) 0%nat
  with
  | Ok (out, _) =>
      (4 # 5 <= teacher_weights (Some (omap feedback_record out)) 1 <= 1)%Q
  | Raise _ => False
  end.
Proof.
  destruct (generate_feedback nat counter_randint counter_choice
              (frame_of_schedule two_seats_schedule) 0%nat)
    as [[out g'] | e] eqn:E.
  - exact (simulated_feedback_weights counter_randint counter_choice
             two_seats_schedule 0%nat out g' 1
             counter_randint_range counter_choice_picks E).
  - vm_compute in E. discriminate.
Defined.

Lemma evaluate_schedule_summary_witness :
  repeated_schedule <> [] /\
  exists matched usage,
    evaluate_schedule repeated_schedule = Ok (matched, usage) /\
    matched = 1%nat.
Proof.
  assert (repeated_schedule <> []) as Hne by discriminate.
  split; [exact Hne |].
  destruct (proj2 evaluate_schedule_summary repeated_schedule Hne)
    as (matched & usage & Heval & (ids & Hnd & Hids & Hlen) & _).
  exists matched, usage. split; [exact Heval |].
  change (List.map a_student_id (clean_schedule repeated_schedule))
    with [1; 1] in Hids.
  rewrite Hlen. destruct ids as [| x [| y l]].
  - exfalso. apply (proj2 (Hids 1)). now left.
  - reflexivity.
  - exfalso. inversion Hnd as [| ? ? Hnotin _]; subst. apply Hnotin.
    assert (x = 1) as -> by (destruct (proj1 (Hids x)) as [H | [H | []]];
                             [now left | now symmetry | now symmetry]).
    assert (y = 1) as -> by (destruct (proj1 (Hids y)) as [H | [H | []]];
                             [right; now left | now symmetry | now symmetry]).
    now left.
Defined.

Lemma evaluation_within_capacity_witness :
  (2 <= length three_students)%nat /\
  Z.of_nat 1 <= max_students_per_slot t_math1.
Proof.
  destruct (evaluation_within_capacity predict_first_label stable_sort_desc
              three_students two_teachers None two_seats_schedule
              2%nat (group_sizes two_seats_schedule)
              stable_sort_desc_sorts two_teachers_distinct
              two_teachers_capacities)
    as [Hmatched Husage].
  - left. vm_compute. reflexivity.
  - reflexivity.
  - split; [exact Hmatched |].
    apply (Husage t_math1 "Mon9" 1%nat); [simpl; auto |].
    vm_compute. reflexivity.
Defined.

Lemma training_frame_mirrors_schedule_witness :
  List.NoDup (List.map student_id three_students) /\
  List.map snd (merge_on_student_id three_students two_seats_schedule)
  = List.map a_teacher_id two_seats_schedule /\
  length (merge_on_student_id three_students two_seats_schedule)
  = length two_seats_schedule.
Proof.
  split; [exact three_students_distinct |].
  apply (training_frame_mirrors_schedule three_students two_teachers).
  - exact three_students_distinct.
  - vm_compute. reflexivity.
Defined.

(** ** [src/matcher.py]: weight preference and return of the feedback loop *)

(** X27. Weight preference of the greedy branch, for any sort that returns
    its rows in descending weight order: when the greedy branch assigns a
    student, the chosen teacher weighs at least as much as every teacher that
    could take the student at that moment; so a teacher that could take the
    student is never passed over for a strictly lighter one. *)
Theorem greedy_prefers_heavier
  sort_values (weights : Z -> Q) clf teachers st s st' a :
  sorts_descending sort_values ->
  feedback_step sort_values weights clf teachers st s = Ok st' ->
  snd st' = snd st ++ [(Greedy, a)] ->
  (forall t, In t teachers -> can_take (fst st) s t = true ->
     (weights (teacher_id t) <= weights (a_teacher_id a))%Q) /\
  (forall t, In t teachers -> can_take (fst st) s t = true ->
     (weights (a_teacher_id a) < weights (teacher_id t))%Q -> False).
Proof.
  intros Hsort Hstep Hsnd.
  assert (forall t, In t teachers -> can_take (fst st) s t = true ->
            (weights (teacher_id t) <= weights (a_teacher_id a))%Q) as Hmax.
  { intros t Hin Htake. unfold feedback_step in Hstep.
    destruct (candidate_order sort_values weights s teachers) as [cands |] eqn:Hc;
      cbn [bind] in Hstep; [| discriminate].
    destruct (scan_candidates (fst st) s cands) as [[[a0 ts0] |] |] eqn:Escan;
      cbn [bind] in Hstep; [| | discriminate].
    - injection Hstep as <-. cbn [snd] in Hsnd.
      apply app_inv_head in Hsnd. injection Hsnd as ->.
      eapply greedy_choice_heaviest; eauto.
    - exfalso.
      destruct (fallback clf (fst st) s teachers) as [[[a1 ts1] |] |];
        cbn [bind] in Hstep; [| | discriminate]; injection Hstep as <-.
      + cbn [snd] in Hsnd. apply app_inv_head in Hsnd. discriminate.
      + rewrite <- (app_nil_r (snd st)) in Hsnd at 1.
        apply app_inv_head in Hsnd. discriminate. }
  split; [exact Hmax |].
  intros t Hin Htake Hlt. apply (Qlt_not_le _ _ Hlt). now apply Hmax.
Qed.

(** X28. When [match_with_feedback_loop] returns. With pairwise distinct
    teacher ids and a classifier that answers with labels of its training
    set, the run returns a schedule exactly when the baseline schedule is not
    empty. In that case training succeeds and every prediction of the
    classifier is a teacher id of the frame, so the row lookup of the
    fallback branch always finds a row: on every table with a counter for
    each offered slot the branch returns, with an entry or with nothing. *)
Theorem feedback_loop_returns
  predict sort_values students teachers fb initial_schedule :
  sorts_descending sort_values ->
  predicts_training_labels predict ->
  List.NoDup (List.map teacher_id teachers) ->
  match_students_to_teachers students teachers = Ok initial_schedule ->
  ((exists schedule,
       match_with_feedback_loop predict sort_values students teachers fb
       = Ok schedule) <->
   initial_schedule <> []) /\
  (initial_schedule <> [] ->
   exists clf,
     train_teacher_recommender predict initial_schedule students = Ok clf /\
     (forall query, In (clf query) (List.map teacher_id teachers)) /\
     (forall ts s, covers teachers ts ->
        exists hit, fallback clf ts s teachers = Ok hit)).
Proof.
  intros Hsort Hlabels Hnd Hbase. split.
  - split.
    + intros [schedule Hrun] ->.
      unfold match_with_feedback_loop, feedback_trace in Hrun.
      rewrite Hbase in Hrun. discriminate.
    + intros Hne. apply feedback_returns; try assumption.
      rewrite baseline_returns in Hbase by assumption.
      now injection Hbase as ->.
  - intros Hne.
    destruct (train_on_baseline predict _ _ _ Hbase Hne) as (clf & Ht & Hclf).
    exists clf. split; [exact Ht |].
    split; [exact (Hclf Hlabels) |].
    intros ts s Hcov. apply fallback_total; [exact Hcov |].
    now apply Hclf.
Qed.

Lemma greedy_prefers_heavier_witness :
  sorts_descending stable_sort_desc /\
  (teacher_weights (Some ratings) (teacher_id t_math1)
   <= teacher_weights (Some ratings) (a_teacher_id (entry 1 2 "Mon9" "1:1")))%Q.
Proof.
  split; [exact stable_sort_desc_sorts |].
  refine (proj1 (greedy_prefers_heavier stable_sort_desc
                   (teacher_weights (Some ratings)) (fun _ => 1) two_teachers
                   (init_teacher_slots two_teachers, []) s_math1 _
                   (entry 1 2 "Mon9" "1:1") stable_sort_desc_sorts
                   Logic.eq_refl _) t_math1 _ _).
  - reflexivity.
  - simpl. auto.
  - vm_compute. reflexivity.
Defined.

Lemma feedback_loop_returns_witness :
  predicts_training_labels predict_first_label /\
  two_seats_schedule <> [] /\
  exists schedule,
    match_with_feedback_loop predict_first_label stable_sort_desc
      three_students two_teachers None = Ok schedule.
Proof.
  split; [exact predict_first_label_ok |].
  assert (two_seats_schedule <> []) as Hne by discriminate.
  split; [exact Hne |].
  refine (proj2 (proj1 (feedback_loop_returns predict_first_label
                          stable_sort_desc three_students two_teachers None
                          two_seats_schedule stable_sort_desc_sorts
                          predict_first_label_ok two_teachers_distinct _)) Hne).
  vm_compute. reflexivity.
Defined.
